(** * heat.cu: the 2D heat-diffusion kernels and their driver

    A shallow embedding of [src/heat.cu]: the two device kernels
    ([blend_kernel], [copy_const_kernel]), the frame routine [anim_gpu] with
    its pointer swap, and the seeding done by [main].

    - [float] values are IEEE-754 binary32 numbers, modelled with the
      Standard Library's [SpecFloat] at precision 24 and maximal exponent 128;
      every C operator is one correctly rounded operation (a product and
      a sum are not fused).
    - [int] and [unsigned] arithmetic is carried out in [Z] with the 32-bit
      wrap-around written out.
    - Device memory is a finite map from pointers to buffers; a load or store
      outside a buffer is an error ([None]).
    - A kernel launch runs the body once per thread of the launch geometry.
      Threads are run one after the other; each thread writes only the cell at
      its own offset, so the order does not matter. *)

From Stdlib Require Import ZArith Lia Bool.
From Stdlib Require Import Floats.SpecFloat.
From stdpp Require Import base option list gmap.

Local Open Scope Z_scope.

(** ** binary32 arithmetic *)

Module Float32.
Definition prec : Z := 24.
Definition emax : Z := 128.

Definition float : Type := spec_float.

Definition add : float → float → float := SFadd prec emax.
Definition sub : float → float → float := SFsub prec emax.
Definition mul : float → float → float := SFmul prec emax.
Definition div : float → float → float := SFdiv prec emax.

(** C's [==] and [!=]: a NaN is different from everything, and the two
    zeros are equal. *)
Definition eqb (a b : float) : bool := SFeqb a b.
Definition neb (a b : float) : bool := negb (SFeqb a b).

(** Conversion of an [int] to [float]. *)
Definition of_int (z : Z) : float := binary_normalize prec emax z 0 false.

(** A decimal literal [n/d] with [n] and [d] exactly representable: the
    correctly rounded quotient is the nearest binary32 number. *)
Definition lit (n d : Z) : float := div (of_int n) (of_int d).

Definition zero : float := of_int 0.
End Float32.

Import Float32.

Global Instance float_eq_dec : EqDecision float.
Proof. solve_decision. Defined.

Global Instance float_inhabited : Inhabited float := populate zero.

(** The [#define]s of the file. [DIM] is a parameter of the definitions
    below; the file fixes it to 1024. *)
Definition DIM_ref : Z := 1024.
Definition MAX_TEMP : float := lit 1 1.
Definition MIN_TEMP : float := lit 1 10000.
Definition SPEED : float := lit 25 100.

(** ** 32-bit integers *)

Definition wrap_uint (z : Z) : Z := z mod 4294967296.
Definition wrap_int (z : Z) : Z := (z + 2147483648) mod 4294967296 - 2147483648.

Definition uadd (a b : Z) : Z := wrap_uint (a + b).
Definition umul (a b : Z) : Z := wrap_uint (a * b).
Definition iadd (a b : Z) : Z := wrap_int (a + b).
Definition isub (a b : Z) : Z := wrap_int (a - b).
Definition imul (a b : Z) : Z := wrap_int (a * b).

(** ** Sequencing of fallible steps *)

Fixpoint iterM {A St : Type} (body : A → St → option St) (l : list A) (s : St)
    : option St :=
  match l with
  | [] => Some s
  | a :: l => s' ← body a s; iterM body l s'
  end.

(** [for (int i = lo; i < hi; i++) body] *)
Definition for_range {St : Type} (lo hi : Z) (body : Z → St → option St)
    (s : St) : option St :=
  iterM body (seqZ lo (hi - lo)) s.

(** ** Device memory *)

Definition ptr : Type := positive.
Abbreviation devmem := (gmap ptr (list float)).

Definition load (m : devmem) (p : ptr) (i : Z) : option float :=
  buf ← m !! p;
  if decide (0 ≤ i) then buf !! Z.to_nat i else None.

Definition store (m : devmem) (p : ptr) (i : Z) (v : float) : option devmem :=
  buf ← m !! p;
  if decide (0 ≤ i < Z.of_nat (length buf))
  then Some (<[p := <[Z.to_nat i := v]> buf]> m)
  else None.

(** ** Launch geometry *)

Record dim3 : Type := Dim3 { dim_x : Z; dim_y : Z }.

Record thread : Type := Thread {
  threadIdx : dim3;
  blockIdx : dim3;
  blockDim : dim3;
  gridDim : dim3
}.

Definition threads_of (grid block : dim3) : list thread :=
  by_ ← seqZ 0 (dim_y grid);
  bx ← seqZ 0 (dim_x grid);
  ty ← seqZ 0 (dim_y block);
  tx ← seqZ 0 (dim_x block);
  [Thread (Dim3 tx ty) (Dim3 bx by_) block grid].

(** [kernel<<<grid,block>>>(...)] *)
Definition launch (grid block : dim3)
    (kernel : thread → devmem → option devmem) (m : devmem) : option devmem :=
  iterM kernel (threads_of grid block) m.

(** ** The kernels *)

(** The pixel position and the offset every kernel starts with. *)
Definition pixel_x (t : thread) : Z :=
  wrap_int (uadd (dim_x (threadIdx t)) (umul (dim_x (blockIdx t)) (dim_x (blockDim t)))).
Definition pixel_y (t : thread) : Z :=
  wrap_int (uadd (dim_y (threadIdx t)) (umul (dim_y (blockIdx t)) (dim_y (blockDim t)))).
Definition pixel_offset (t : thread) : Z :=
  wrap_int (uadd (pixel_x t)
                 (umul (umul (pixel_y t) (dim_x (blockDim t))) (dim_x (gridDim t)))).

Section Kernels.
Variable DIM : Z.

Record stencil_idx : Type := StencilIdx {
  s_offset : Z; s_left : Z; s_right : Z; s_top : Z; s_bottom : Z
}.

(** The five indices [blend_kernel] reads. *)
Definition blend_indices (t : thread) : stencil_idx :=
  let x := pixel_x t in
  let y := pixel_y t in
  let offset := pixel_offset t in
  let left := isub offset 1 in
  let right := iadd offset 1 in
  let left := if decide (x = 0) then iadd left 1 else left in
  let right := if decide (x = DIM - 1) then isub right 1 else right in
  let top := isub offset DIM in
  let bottom := iadd offset DIM in
  let top := if decide (y = 0) then iadd top DIM else top in
  let bottom := if decide (y = DIM - 1) then isub bottom DIM else bottom in
  StencilIdx offset left right top bottom.

(** The value [blend_kernel] stores, from the five values it loads. *)
Definition blend_value (c top bottom left right : float) : float :=
  add c (mul SPEED (sub (add (add (add top bottom) left) right)
                        (mul c (of_int 4)))).

Definition blend_kernel (outSrc inSrc : ptr) (t : thread) (m : devmem)
    : option devmem :=
  let i := blend_indices t in
  c ← load m inSrc (s_offset i);
  top ← load m inSrc (s_top i);
  bottom ← load m inSrc (s_bottom i);
  left ← load m inSrc (s_left i);
  right ← load m inSrc (s_right i);
  store m outSrc (s_offset i) (blend_value c top bottom left right).

Definition copy_const_kernel (iptr cptr : ptr) (t : thread) (m : devmem)
    : option devmem :=
  let offset := pixel_offset t in
  c ← load m cptr offset;
  if neb c (of_int 0) then store m iptr offset c else Some m.
End Kernels.

(** ** The frame routine *)

Record DataBlock : Type := {
  dev_inSrc : ptr;
  dev_outSrc : ptr;
  dev_constSrc : ptr
}.

(** [swap( d->dev_inSrc, d->dev_outSrc )]: the two pointers change places;
    device memory is not an argument. *)
Definition swap (d : DataBlock) : DataBlock :=
  {| dev_inSrc := dev_outSrc d;
     dev_outSrc := dev_inSrc d;
     dev_constSrc := dev_constSrc d |}.

Section Driver.
Variable DIM : Z.

(** [float_to_color] comes from [book.h] and the bitmap from [cpu_anim.h];
    the routine only passes the buffer on, so both stay abstract.  The
    event timer and the frame counter do not touch the grids and are left
    out. *)
Context {Bitmap : Type} (float_to_color : list float → Bitmap).

(** The body of the [for] loop of [anim_gpu]. *)
Definition anim_step (blocks threads : dim3) (s : DataBlock * devmem)
    : option (DataBlock * devmem) :=
  let '(d, m) := s in
  m ← launch blocks threads (copy_const_kernel (dev_inSrc d) (dev_constSrc d)) m;
  m ← launch blocks threads (blend_kernel DIM (dev_outSrc d) (dev_inSrc d)) m;
  Some (swap d, m).

Definition anim_gpu (d : DataBlock) (m : devmem)
    : option (DataBlock * devmem * Bitmap) :=
  let blocks := Dim3 (DIM `quot` 16) (DIM `quot` 16) in
  let threads := Dim3 16 16 in
  '(d, m) ← for_range 0 90 (λ _, anim_step blocks threads) (d, m);
  shown ← m !! dev_inSrc d;
  Some (d, m, float_to_color shown).
End Driver.

(** ** Teardown *)

(** [cudaFree]: the allocation is released.  Freeing a pointer that is not
    allocated is an error code, which [anim_exit] does not look at. *)
Definition cudaFree (p : ptr) (m : devmem) : devmem := delete p m.

(** [anim_exit].  The two events are outside the model, as in [anim_gpu]. *)
Definition anim_exit (d : DataBlock) (m : devmem) : devmem :=
  cudaFree (dev_constSrc d) (cudaFree (dev_outSrc d) (cudaFree (dev_inSrc d) m)).

(** ** The animation loop *)

Section Frames.
Variable DIM : Z.
Context {Bitmap : Type} (float_to_color : list float → Bitmap).

(** Modelled from the spec: [CPUAnimBitmap::anim_and_exit] is declared in
    [cpu_anim.h], which the repository does not contain.  The spec has the
    frame-advance entry point "invoked once per displayed frame by an
    external animation/event loop", with the simulation context.
    [run_frames n] is [n] such calls of [anim_gpu], one after the other, and
    collects the bitmaps in the order they are shown. *)
Fixpoint run_frames (n : nat) (d : DataBlock) (m : devmem)
    : option (DataBlock * devmem * list Bitmap) :=
  match n with
  | O => Some (d, m, [])
  | S n =>
      '(d, m, shown) ← anim_gpu DIM float_to_color d m;
      '(d, m, rest) ← run_frames n d m;
      Some (d, m, shown :: rest)
  end.
End Frames.

(** ** Seeding in [main] *)

(** A store into the host array [temp]. *)
Definition hstore (temp : list float) (i : Z) (v : float) : option (list float) :=
  if decide (0 ≤ i < Z.of_nat (length temp))
  then Some (<[Z.to_nat i := v]> temp)
  else None.

(** [cudaMalloc]: a fresh pointer to a buffer of unspecified content. *)
Definition cudaMalloc (content : list float) (m : devmem) : ptr * devmem :=
  let p := fresh (dom m) in (p, <[p := content]> m).

(** [cudaMemcpy( dst, src, count, cudaMemcpyHostToDevice )], [count] in
    floats. *)
Definition cudaMemcpy (dst : ptr) (src : list float) (count : Z) (m : devmem)
    : option devmem :=
  buf ← m !! dst;
  if decide (0 ≤ count ≤ Z.of_nat (length buf) ∧ count ≤ Z.of_nat (length src))
  then Some (<[dst := take (Z.to_nat count) src ++ drop (Z.to_nat count) buf]> m)
  else None.

(** Modelled from the spec: [CPUAnimBitmap::image_size] is declared in
    [cpu_anim.h], which the repository does not contain.  The spec's
    allocator interface gives every buffer D * D * sizeof(scalar) bytes; with
    "float == 4 chars in size", as [main] assumes, that is [DIM * DIM]
    floats, the unit in which this model counts. *)
Definition image_size (DIM : Z) : Z := imul DIM DIM.

Section Main.
Variable DIM : Z.

(** "intialize the constant data" *)
Definition seed_const (temp : list float) : option (list float) :=
  temp ← for_range 0 (imul DIM DIM) (λ i temp,
    temp ← hstore temp i (of_int 0);
    let x := i `rem` DIM in
    let y := i `quot` DIM in
    if decide (300 < x ∧ x < 600 ∧ 310 < y ∧ y < 601)
    then hstore temp i MAX_TEMP
    else Some temp) temp;
  temp ← hstore temp (iadd (imul DIM 100) 100) (div (add MAX_TEMP MIN_TEMP) (of_int 2));
  temp ← hstore temp (iadd (imul DIM 700) 100) MIN_TEMP;
  temp ← hstore temp (iadd (imul DIM 300) 300) MIN_TEMP;
  temp ← hstore temp (iadd (imul DIM 200) 700) MIN_TEMP;
  for_range 800 900 (λ y temp,
    for_range 400 500 (λ x temp,
      hstore temp (iadd x (imul y DIM)) MIN_TEMP) temp) temp.

(** "initialize the input data": [temp] is the array just copied to the
    mask, not a cleared one. *)
Definition seed_input (temp : list float) : option (list float) :=
  for_range 800 DIM (λ y temp,
    for_range 0 200 (λ x temp,
      hstore temp (iadd x (imul y DIM)) MAX_TEMP) temp) temp.

(** [main] up to the call of [anim_and_exit].  The four arguments are the
    unspecified contents of the freshly allocated arrays. *)
Definition main (in0 out0 const0 temp0 : list float)
    : option (DataBlock * devmem) :=
  let imageSize := image_size DIM in
  let '(p_in, m) := cudaMalloc in0 ∅ in
  let '(p_out, m) := cudaMalloc out0 m in
  let '(p_const, m) := cudaMalloc const0 m in
  temp ← seed_const temp0;
  m ← cudaMemcpy p_const temp imageSize m;
  temp ← seed_input temp;
  m ← cudaMemcpy p_in temp imageSize m;
  Some ({| dev_inSrc := p_in; dev_outSrc := p_out; dev_constSrc := p_const |}, m).
End Main.

(** ** The specification's vocabulary

    The definitions of this section follow the words of the specification,
    not the code: a grid is a flat row-major list, [DiffusionStep] and
    [SourceClampStep] are pure functions on grids, and a substep acts on the
    pair of grids labelled "current" and "next". *)

Section Spec.
Variable D : Z.

Definition cell (g : list float) (x y : Z) : float :=
  g !!! Z.to_nat (x + y * D).

(** A neighbour outside the grid is replaced by the cell's own value. *)
Definition north (g : list float) (x y : Z) : float :=
  if decide (y = 0) then cell g x y else cell g x (y - 1).
Definition south (g : list float) (x y : Z) : float :=
  if decide (y = D - 1) then cell g x y else cell g x (y + 1).
Definition west (g : list float) (x y : Z) : float :=
  if decide (x = 0) then cell g x y else cell g (x - 1) y.
Definition east (g : list float) (x y : Z) : float :=
  if decide (x = D - 1) then cell g x y else cell g (x + 1) y.

Definition stencil (g : list float) (x y : Z) : float :=
  add (cell g x y)
      (mul SPEED (sub (add (add (add (north g x y) (south g x y)) (west g x y))
                           (east g x y))
                      (mul (of_int 4) (cell g x y)))).

Definition DiffusionStep (g : list float) : list float :=
  (λ o, stencil g (o `mod` D) (o `div` D)) <$> seqZ 0 (D * D).

Definition SourceClampStep (mask g : list float) : list float :=
  zip_with (λ c v, if neb c zero then c else v) mask g.

Record buffers : Type := Buffers { current : list float; next : list float }.

(** Clamp current in place, diffuse from current into next, swap labels. *)
Definition substep (mask : list float) (b : buffers) : buffers :=
  let cur := SourceClampStep mask (current b) in
  let nxt := DiffusionStep cur in
  Buffers nxt cur.
End Spec.

(** * Vocabulary of the proofs *)

(** A float that compares equal to zero is one of the two zeros. *)
Definition is_zero (v : float) : Prop := eqb v zero = true.

(** What [copy_const_kernel] leaves in a cell of content [v] whose mask
    value is [c]. *)
Definition clamp_value (c v : float) : float := if neb c zero then c else v.

(** ** Launches that cover the grid

    The thread blocks tile the [D] x [D] grid exactly, and every index the
    kernels compute fits a 32-bit [int]. *)
Record geometry_ok (D : Z) (grid block : dim3) : Prop := {
  geo_pos : 0 < D;
  geo_block_x : 0 < dim_x block;
  geo_block_y : 0 < dim_y block;
  geo_x : dim_x block * dim_x grid = D;
  geo_y : dim_y block * dim_y grid = D;
  geo_small : D * D + D ≤ 2147483648
}.

Definition cells (D : Z) : nat := Z.to_nat (D * D).

Definition offset_of (t : thread) : nat := Z.to_nat (pixel_offset t).

(** ** Threads that each settle the cell at their own offset

    [m0] is the memory around the buffer [p]; [g] is the content of [p] at
    the launch, and [v i] the value cell [i] holds once its thread has run. *)
Definition settled (g : list float) (v : nat → float)
    (seen : list nat) (buf : list float) : Prop :=
  length buf = length g ∧
  ∀ i, (i < length g)%nat →
       buf !! i = Some (if decide (i ∈ seen) then v i else g !!! i).

Definition settles (k : thread → devmem → option devmem) (p : ptr) (m0 : devmem)
    (g : list float) (v : nat → float) (off : thread → nat) (t : thread) : Prop :=
  (off t < length g)%nat ∧
  ∀ buf, length buf = length g →
         (buf !! off t = Some (g !!! off t) ∨ buf !! off t = Some (v (off t))) →
         k t (<[p := buf]> m0) = Some (<[p := <[off t := v (off t)]> buf]> m0).

(** ** The driver's state *)

(** The three buffers of a [DataBlock] are distinct allocations of one cell
    per pixel: [cur] behind [dev_inSrc], [nxt] behind [dev_outSrc] and the
    mask behind [dev_constSrc]. *)
Record state_ok (D : Z) (d : DataBlock) (m : devmem)
    (mask cur nxt : list float) : Prop := {
  ok_in : m !! dev_inSrc d = Some cur;
  ok_out : m !! dev_outSrc d = Some nxt;
  ok_const : m !! dev_constSrc d = Some mask;
  ok_in_out : dev_inSrc d ≠ dev_outSrc d;
  ok_in_const : dev_inSrc d ≠ dev_constSrc d;
  ok_out_const : dev_outSrc d ≠ dev_constSrc d;
  ok_len_cur : length cur = Z.to_nat (D * D);
  ok_len_nxt : length nxt = Z.to_nat (D * D);
  ok_len_mask : length mask = Z.to_nat (D * D)
}.

(** ** Grids described cell by cell *)

Definition grid_is (D : Z) (g : list float) (f : Z → Z → float) : Prop :=
  length g = Z.to_nat (D * D) ∧
  ∀ x y, 0 ≤ x < D → 0 ≤ y < D → cell D g x y = f x y.

(** [paint_rect xlo xhi ylo yhi v f] is [f] with the cells of the rectangle
    [xlo ≤ x < xhi], [ylo ≤ y < yhi] set to [v]. *)
Definition paint_rect (xlo xhi ylo yhi : Z) (v : float) (f : Z → Z → float)
    (x y : Z) : float :=
  if decide (xlo ≤ x < xhi ∧ ylo ≤ y < yhi) then v else f x y.

(** The mask: a hot rectangle, four single cells and a cold block. *)
Definition seeded_mask : Z → Z → float :=
  paint_rect 400 500 800 900 MIN_TEMP
    (paint_rect 700 701 200 201 MIN_TEMP
      (paint_rect 300 301 300 301 MIN_TEMP
        (paint_rect 100 101 700 701 MIN_TEMP
          (paint_rect 100 101 100 101 (div (add MAX_TEMP MIN_TEMP) (of_int 2))
            (paint_rect 301 600 311 601 MAX_TEMP (λ _ _, zero)))))).

(** The initial input: the mask's values with one more hot rectangle. *)
Definition seeded_input (D : Z) : Z → Z → float :=
  paint_rect 0 200 800 D MAX_TEMP seeded_mask.

(** The grid that is zero except for [MAX_TEMP] in the rectangle [main]
    adds to the input. *)
Definition hot_only (D : Z) : list float :=
  (λ o, paint_rect 0 200 800 D MAX_TEMP (λ _ _, zero) (o `mod` D) (o `div` D))
    <$> seqZ 0 (D * D).

(** The mask [main] seeds, as a list. *)
Definition seeded_mask_list (D : Z) : list float :=
  (λ o, seeded_mask (o `mod` D) (o `div` D)) <$> seqZ 0 (D * D).

(** Two grids agree wherever the mask does not pin. *)
Definition agree_unpinned (mask g g' : list float) : Prop :=
  ∀ i : nat, is_zero (mask !!! i) → g !!! i = g' !!! i.

(** Two cells are the same or next to each other along an axis. *)
Definition adjacent (x y x' y' : Z) : Prop :=
  (x' = x ∧ y' = y) ∨ (x' = x ∧ (y' = y - 1 ∨ y' = y + 1)) ∨
  (y' = y ∧ (x' = x - 1 ∨ x' = x + 1)).

(** ** Example data *)

Definition zeros (D : Z) : list float := replicate (Z.to_nat (D * D)) zero.

Definition d_ex : DataBlock :=
  {| dev_inSrc := 1%positive; dev_outSrc := 2%positive; dev_constSrc := 3%positive |}.

Definition m_ex (mask cur nxt : list float) : devmem :=
  <[1%positive := cur]> (<[2%positive := nxt]> (<[3%positive := mask]> ∅)).

(** [pin_cell D x y v g] is the grid [g] with cell (x, y) set to [v]. *)
Definition pin_cell (D x y : Z) (v : float) (g : list float) : list float :=
  <[Z.to_nat (x + y * D) := v]> g.

Definition half : float := lit 1 2.
Definition quarter : float := lit 1 4.

(** A mask that pins cell (1, 1) to 1.0 and its four neighbours to 0.5. *)
Definition mask_hot (D : Z) : list float :=
  pin_cell D 1 1 MAX_TEMP
    (pin_cell D 1 0 half
      (pin_cell D 1 2 half
        (pin_cell D 0 1 half
          (pin_cell D 2 1 half (zeros D))))).

(** The 4x4 example: the mask pins cell (0,0) to 1.0. *)
Definition mask4 : list float := pin_cell 4 0 0 (lit 1 1) (zeros 4).

(** The grid one substep leaves as current: row 0 first. *)
Definition after4 : list float :=
  [ half;    quarter; zero; zero;
    quarter; zero;    zero; zero;
    zero;    zero;    zero; zero;
    zero;    zero;    zero; zero ].

(** [blocks(DIM/16, DIM/16)] and [threads(16, 16)] at DIM = 1024. *)
Definition blocks_ref : dim3 := Dim3 (DIM_ref `quot` 16) (DIM_ref `quot` 16).
Definition threads_ref : dim3 := Dim3 16 16.

(** A grid with the single cell (300, 200) at 1.0. *)
Definition grid_ex : list float := pin_cell DIM_ref 300 200 MAX_TEMP (zeros DIM_ref).

(** A grid with a NaN at cell (300, 200). *)
Definition nan_grid : list float := pin_cell DIM_ref 300 200 S754_nan (zeros DIM_ref).

(** Thread (3, 5) of block (10, 20). *)
Definition thread_ex : thread := Thread (Dim3 3 5) (Dim3 10 20) threads_ref blocks_ref.

(** * Properties *)

(** ** Integers that do not wrap *)

Lemma wrap_uint_small z : 0 ≤ z < 4294967296 → wrap_uint z = z.
Proof. intros ?. unfold wrap_uint. apply Z.mod_small. lia. Qed.

Lemma wrap_int_small z : -2147483648 ≤ z < 2147483648 → wrap_int z = z.
Proof. intros ?. unfold wrap_int. rewrite Z.mod_small; lia. Qed.

Lemma uadd_small a b : 0 ≤ a + b < 4294967296 → uadd a b = a + b.
Proof. apply wrap_uint_small. Qed.

Lemma umul_small a b : 0 ≤ a * b < 4294967296 → umul a b = a * b.
Proof. apply wrap_uint_small. Qed.

Lemma iadd_small a b : -2147483648 ≤ a + b < 2147483648 → iadd a b = a + b.
Proof. apply wrap_int_small. Qed.

Lemma isub_small a b : -2147483648 ≤ a - b < 2147483648 → isub a b = a - b.
Proof. apply wrap_int_small. Qed.

Lemma imul_small a b : -2147483648 ≤ a * b < 2147483648 → imul a b = a * b.
Proof. apply wrap_int_small. Qed.

(** ** binary32 facts *)

Lemma mul_comm (a b : float) : mul a b = mul b a.
Proof.
  unfold mul. destruct a as [sa|sa| |sa ma ea], b as [sb|sb| |sb mb eb];
    simpl; rewrite ?(xorb_comm sa sb); try reflexivity.
  by rewrite (Pos.mul_comm ma mb), (Z.add_comm ea eb).
Qed.

Lemma is_zero_inv v : is_zero v → ∃ s, v = S754_zero s.
Proof.
  unfold is_zero, eqb, SFeqb. destruct v as [s|s| |s m e]; simpl; eauto.
  - by destruct s.
  - done.
  - by destruct s.
Qed.

Lemma is_zero_zero : is_zero zero.
Proof. reflexivity. Qed.

Lemma blend_value_zero c t b l r :
  is_zero c → is_zero t → is_zero b → is_zero l → is_zero r →
  is_zero (blend_value c t b l r).
Proof.
  intros [sc ->]%is_zero_inv [st ->]%is_zero_inv [sb ->]%is_zero_inv
         [sl ->]%is_zero_inv [sr ->]%is_zero_inv.
  by destruct sc, st, sb, sl, sr.
Qed.

(** ** Loops *)

Lemma iterM_app {A St} (body : A → St → option St) l1 l2 s :
  iterM body (l1 ++ l2) s = iterM body l1 s ≫= iterM body l2.
Proof.
  revert s. induction l1 as [|a l1 IH]; intros s; simpl; [done|].
  destruct (body a s) as [s'|]; simpl; [apply IH|done].
Qed.

(** Invariant rule for a counted loop. *)
Lemma for_range_inv {St} (P : Z → St → Prop) lo hi (body : Z → St → option St) s :
  lo ≤ hi →
  P lo s →
  (∀ i s, lo ≤ i < hi → P i s → ∃ s', body i s = Some s' ∧ P (i + 1) s') →
  ∃ s', for_range lo hi body s = Some s' ∧ P hi s'.
Proof.
  intros Hle Hlo Hstep. unfold for_range.
  assert (∀ n : nat, lo + Z.of_nat n ≤ hi →
    ∃ s', iterM body (seqZ lo (Z.of_nat n)) s = Some s' ∧ P (lo + Z.of_nat n) s')
    as Hn.
  { induction n as [|n IH]; intros Hb.
    - exists s. rewrite Z.add_0_r. by split.
    - destruct IH as (s1 & Hrun & HP); [lia|].
      destruct (Hstep (lo + Z.of_nat n) s1) as (s2 & Hbody & HP2); [lia|done|].
      exists s2. rewrite seqZ_S, iterM_app, Hrun. simpl. rewrite Hbody. simpl.
      split; [done|]. by replace (lo + Z.of_nat (S n)) with (lo + Z.of_nat n + 1) by lia. }
  destruct (Hn (Z.to_nat (hi - lo))) as (s' & Hrun & HP); [lia|].
  exists s'. rewrite Z2Nat.id in Hrun, HP by lia.
  split; [done|]. by replace (lo + (hi - lo)) with hi in HP by lia.
Qed.

(** ** Threads of a launch *)

Lemma elem_of_threads_of grid block t :
  t ∈ threads_of grid block ↔
  blockDim t = block ∧ gridDim t = grid ∧
  0 ≤ dim_x (threadIdx t) < dim_x block ∧ 0 ≤ dim_y (threadIdx t) < dim_y block ∧
  0 ≤ dim_x (blockIdx t) < dim_x grid ∧ 0 ≤ dim_y (blockIdx t) < dim_y grid.
Proof.
  unfold threads_of. split.
  - intros H.
    apply list_elem_of_bind in H as (by_ & H & Hby%elem_of_seqZ).
    apply list_elem_of_bind in H as (bx & H & Hbx%elem_of_seqZ).
    apply list_elem_of_bind in H as (ty & H & Hty%elem_of_seqZ).
    apply list_elem_of_bind in H as (tx & H & Htx%elem_of_seqZ).
    apply list_elem_of_singleton in H as ->. simpl. repeat split; lia.
  - destruct t as [[tx ty] [bx by_] bd gd]. simpl.
    intros (-> & -> & Htx & Hty & Hbx & Hby).
    apply list_elem_of_bind. exists by_. split; [|apply elem_of_seqZ; lia].
    apply list_elem_of_bind. exists bx. split; [|apply elem_of_seqZ; lia].
    apply list_elem_of_bind. exists ty. split; [|apply elem_of_seqZ; lia].
    apply list_elem_of_bind. exists tx. split; [|apply elem_of_seqZ; lia].
    by apply list_elem_of_singleton.
Qed.

Section Geometry.
Context {D : Z} {grid block : dim3} (Hgeo : geometry_ok D grid block).

Lemma geo_dim_bound : D < 65536.
Proof. destruct Hgeo. nia. Qed.

Lemma thread_pixel t :
  t ∈ threads_of grid block →
  0 ≤ pixel_x t < D ∧ 0 ≤ pixel_y t < D ∧
  pixel_offset t = pixel_x t + pixel_y t * D.
Proof.
  intros (Hbd & Hgd & Htx & Hty & Hbx & Hby)%elem_of_threads_of.
  pose proof geo_dim_bound as HD. destruct Hgeo.
  assert (pixel_x t = dim_x (threadIdx t) + dim_x (blockIdx t) * dim_x block) as Hx.
  { unfold pixel_x. rewrite Hbd.
    rewrite umul_small, uadd_small, wrap_int_small; nia. }
  assert (pixel_y t = dim_y (threadIdx t) + dim_y (blockIdx t) * dim_y block) as Hy.
  { unfold pixel_y. rewrite Hbd.
    rewrite umul_small, uadd_small, wrap_int_small; nia. }
  assert (0 ≤ pixel_x t < D) as Hxr by (rewrite Hx; nia).
  assert (0 ≤ pixel_y t < D) as Hyr by (rewrite Hy; nia).
  repeat split; try lia.
  unfold pixel_offset. rewrite Hbd, Hgd.
  assert (0 ≤ pixel_y t * dim_x block < 4294967296) by nia.
  rewrite (umul_small (pixel_y t)) by done.
  replace (pixel_y t * dim_x block * dim_x grid) with (pixel_y t * D) by nia.
  rewrite umul_small, uadd_small, wrap_int_small; nia.
Qed.

(** Every cell of the grid is the pixel of some thread. *)
Lemma thread_cover x y :
  0 ≤ x < D → 0 ≤ y < D →
  ∃ t, t ∈ threads_of grid block ∧ pixel_x t = x ∧ pixel_y t = y.
Proof.
  intros Hx Hy. pose proof geo_dim_bound as HD. destruct Hgeo.
  set (t := Thread (Dim3 (x `mod` dim_x block) (y `mod` dim_y block))
                   (Dim3 (x `div` dim_x block) (y `div` dim_y block)) block grid).
  pose proof (Z.mod_pos_bound x (dim_x block) ltac:(lia)).
  pose proof (Z.mod_pos_bound y (dim_y block) ltac:(lia)).
  pose proof (Z.div_mod x (dim_x block) ltac:(lia)).
  pose proof (Z.div_mod y (dim_y block) ltac:(lia)).
  assert (0 ≤ x `div` dim_x block < dim_x grid).
  { split; [apply Z.div_pos; lia|]. apply Z.div_lt_upper_bound; lia. }
  assert (0 ≤ y `div` dim_y block < dim_y grid).
  { split; [apply Z.div_pos; lia|]. apply Z.div_lt_upper_bound; lia. }
  exists t. split; [by apply elem_of_threads_of|].
  unfold pixel_x, pixel_y. simpl.
  rewrite !umul_small, !uadd_small, !wrap_int_small; nia.
Qed.
End Geometry.

(** ** Loads and stores *)

Lemma load_insert_ne (m : devmem) p q buf i :
  p ≠ q → load (<[p := buf]> m) q i = load m q i.
Proof. intros ?. unfold load. by rewrite lookup_insert_ne. Qed.

Lemma load_in_range (m : devmem) p buf i :
  m !! p = Some buf → 0 ≤ i < Z.of_nat (length buf) →
  load m p i = Some (buf !!! Z.to_nat i).
Proof.
  intros Hp Hi. unfold load. rewrite Hp. simpl.
  rewrite decide_True by lia. apply list_lookup_lookup_total_lt. lia.
Qed.

Lemma store_insert (m : devmem) p buf i v :
  0 ≤ i < Z.of_nat (length buf) →
  store (<[p := buf]> m) p i v = Some (<[p := <[Z.to_nat i := v]> buf]> m).
Proof.
  intros Hi. unfold store. rewrite lookup_insert_eq. simpl.
  rewrite decide_True by done. by rewrite insert_insert_eq.
Qed.

(** ** A launch whose threads each settle the cell at their own offset *)

Section Pointwise.
Context (k : thread → devmem → option devmem) (p : ptr) (m0 : devmem).
Context (g : list float) (v : nat → float) (off : thread → nat).

Lemma settled_step seen buf t :
  settled g v seen buf → (off t < length g)%nat →
  settled g v (seen ++ [off t]) (<[off t := v (off t)]> buf).
Proof.
  intros [Hlen Hbuf] Ht. split; [by rewrite length_insert|].
  intros i Hi. destruct (decide (i = off t)) as [->|Hne].
  - rewrite list_lookup_insert_eq by lia.
    rewrite decide_True; [done|]. apply elem_of_app. right. by apply list_elem_of_singleton.
  - rewrite list_lookup_insert_ne by done. rewrite Hbuf by done.
    destruct (decide (i ∈ seen)) as [Hin|Hin].
    + rewrite decide_True; [done|]. apply elem_of_app. by left.
    + rewrite decide_False; [done|].
      intros [?|?%list_elem_of_singleton]%elem_of_app; done.
Qed.

Lemma iterM_settled ts seen buf :
  settled g v seen buf → Forall (settles k p m0 g v off) ts →
  ∃ buf', iterM k ts (<[p := buf]> m0) = Some (<[p := buf']> m0) ∧
          settled g v (seen ++ (off <$> ts)) buf'.
Proof.
  revert seen buf. induction ts as [|t ts IH]; intros seen buf Hs Hts.
  - exists buf. simpl. by rewrite app_nil_r.
  - apply Forall_cons in Hts as [[Ht Hk] Hts].
    destruct (IH (seen ++ [off t]) (<[off t := v (off t)]> buf)) as (buf' & Hrun & Hs');
      [by apply settled_step|done|].
    exists buf'. simpl. rewrite Hk; cycle 1.
    { apply Hs. }
    { destruct Hs as [_ Hbuf]. rewrite Hbuf by done. case_decide; auto. }
    simpl. rewrite Hrun. split; [done|].
    by rewrite <-app_assoc in Hs'.
Qed.

(** When the offsets cover the buffer, the launch replaces it by [v]. *)
Lemma iterM_pointwise ts :
  Forall (settles k p m0 g v off) ts →
  (∀ i, (i < length g)%nat → i ∈ off <$> ts) →
  ∃ buf', iterM k ts (<[p := g]> m0) = Some (<[p := buf']> m0) ∧
          length buf' = length g ∧
          ∀ i, (i < length g)%nat → buf' !! i = Some (v i).
Proof.
  intros Hts Hcover.
  destruct (iterM_settled ts [] g) as (buf' & Hrun & Hlen & Hbuf); [|done|].
  { split; [done|]. intros i Hi. rewrite decide_False by apply not_elem_of_nil.
    by apply list_lookup_lookup_total_lt. }
  exists buf'. split; [done|]. split; [done|].
  intros i Hi. rewrite Hbuf by done. rewrite decide_True; [done|]. by apply Hcover.
Qed.
End Pointwise.

(** ** The kernels compute the specification's steps *)

Lemma offset_mod D x y : 0 ≤ x < D → (x + y * D) `mod` D = x.
Proof. intros ?. rewrite Z.mod_add by lia. apply Z.mod_small. lia. Qed.

Lemma offset_div D x y : 0 ≤ x < D → (x + y * D) `div` D = y.
Proof. intros ?. rewrite Z.div_add by lia. rewrite Z.div_small; lia. Qed.

Lemma offset_range D x y : 0 ≤ x < D → 0 ≤ y < D → 0 ≤ x + y * D < D * D.
Proof. nia. Qed.

(** The stencil of the specification, read off the flat array at the
    indices the kernel uses. *)
Lemma stencil_flat D (g : list float) x y :
  let o := x + y * D in
  stencil D g x y =
  blend_value (g !!! Z.to_nat o)
    (g !!! Z.to_nat (if decide (y = 0) then o else o - D))
    (g !!! Z.to_nat (if decide (y = D - 1) then o else o + D))
    (g !!! Z.to_nat (if decide (x = 0) then o else o - 1))
    (g !!! Z.to_nat (if decide (x = D - 1) then o else o + 1)).
Proof.
  intros o. unfold stencil, blend_value, north, south, west, east, cell.
  rewrite (mul_comm (of_int 4)).
  assert (x + (y - 1) * D = o - D) as -> by lia.
  assert (x + (y + 1) * D = o + D) as -> by lia.
  assert (x - 1 + y * D = o - 1) as -> by lia.
  assert (x + 1 + y * D = o + 1) as -> by lia.
  fold o. by repeat case_decide.
Qed.

Lemma DiffusionStep_length D g : length (DiffusionStep D g) = Z.to_nat (D * D).
Proof. unfold DiffusionStep. by rewrite length_fmap, length_seqZ. Qed.

Lemma DiffusionStep_lookup D g (i : nat) :
  Z.of_nat i < D * D →
  DiffusionStep D g !! i = Some (stencil D g (Z.of_nat i `mod` D) (Z.of_nat i `div` D)).
Proof.
  intros Hi. unfold DiffusionStep. rewrite list_lookup_fmap, lookup_seqZ_lt by done.
  simpl. by rewrite Z.add_0_l.
Qed.

Lemma DiffusionStep_cell D g x y :
  0 ≤ x < D → 0 ≤ y < D →
  cell D (DiffusionStep D g) x y = stencil D g x y.
Proof.
  intros Hx Hy. unfold cell. pose proof (offset_range D x y Hx Hy).
  apply list_lookup_total_correct. rewrite DiffusionStep_lookup by lia.
  rewrite Z2Nat.id by lia. by rewrite offset_mod, offset_div.
Qed.

Lemma SourceClampStep_length mask g :
  length mask = length g → length (SourceClampStep mask g) = length g.
Proof. intros H. unfold SourceClampStep. rewrite length_zip_with. lia. Qed.

Lemma SourceClampStep_lookup mask g (i : nat) :
  (i < length g)%nat → length mask = length g →
  SourceClampStep mask g !! i = Some (clamp_value (mask !!! i) (g !!! i)).
Proof.
  intros Hi Hlen. unfold SourceClampStep. rewrite lookup_zip_with.
  rewrite (list_lookup_lookup_total_lt mask), (list_lookup_lookup_total_lt g) by lia.
  done.
Qed.

Section Refinement.
Context {D : Z} {grid block : dim3} (Hgeo : geometry_ok D grid block).

Lemma blend_indices_grid t :
  t ∈ threads_of grid block →
  let x := pixel_x t in
  let y := pixel_y t in
  let o := x + y * D in
  blend_indices D t =
  StencilIdx o (if decide (x = 0) then o else o - 1)
               (if decide (x = D - 1) then o else o + 1)
               (if decide (y = 0) then o else o - D)
               (if decide (y = D - 1) then o else o + D).
Proof.
  intros Ht x y o. destruct (thread_pixel Hgeo t Ht) as (Hx & Hy & Ho).
  pose proof (offset_range D _ _ Hx Hy) as Hr. destruct Hgeo.
  unfold blend_indices. fold x y. rewrite Ho. fold x y o. fold x y o in Hr.
  rewrite (isub_small o 1), (iadd_small o 1), (isub_small o D), (iadd_small o D) by lia.
  f_equal; case_decide; try done.
  - rewrite iadd_small; lia.
  - rewrite isub_small; lia.
  - rewrite iadd_small; lia.
  - rewrite isub_small; lia.
Qed.

Lemma offsets_cover (i : nat) :
  (i < cells D)%nat → i ∈ offset_of <$> threads_of grid block.
Proof.
  intros Hi. unfold cells in Hi. pose proof (geo_pos _ _ _ Hgeo) as HD.
  assert (0 ≤ Z.of_nat i `mod` D < D) as Hx by (apply Z.mod_pos_bound; lia).
  assert (0 ≤ Z.of_nat i `div` D < D) as Hy.
  { split; [apply Z.div_pos; lia|]. apply Z.div_lt_upper_bound; lia. }
  destruct (thread_cover Hgeo _ _ Hx Hy) as (t & Ht & Htx & Hty).
  apply list_elem_of_fmap. exists t. split; [|done].
  destruct (thread_pixel Hgeo t Ht) as (_ & _ & Ho).
  unfold offset_of. rewrite Ho, Htx, Hty.
  pose proof (Z.div_mod (Z.of_nat i) D ltac:(lia)). lia.
Qed.

Lemma blend_settles (m : devmem) pin pout inb outb t :
  m !! pin = Some inb → pin ≠ pout →
  length inb = cells D → length outb = cells D →
  t ∈ threads_of grid block →
  settles (blend_kernel D pout pin) pout m outb
    (λ i, stencil D inb (Z.of_nat i `mod` D) (Z.of_nat i `div` D)) offset_of t.
Proof.
  intros Hin Hne Hlin Hlout Ht.
  destruct (thread_pixel Hgeo t Ht) as (Hx & Hy & Ho).
  pose proof (offset_range D _ _ Hx Hy) as Hr.
  pose proof (geo_pos _ _ _ Hgeo) as HD.
  unfold offset_of, cells in *. split; [lia|].
  intros buf Hlen _. unfold blend_kernel.
  rewrite (blend_indices_grid t Ht). cbn [s_offset s_top s_bottom s_left s_right].
  rewrite !load_insert_ne by done.
  rewrite !(load_in_range m pin inb) by (try done; repeat case_decide; nia).
  cbn [mbind option_bind]. rewrite store_insert by lia.
  rewrite Ho, Z2Nat.id, offset_mod, offset_div by lia.
  by rewrite stencil_flat.
Qed.

(** A launch of [blend_kernel] is [DiffusionStep] from [inSrc] into
    [outSrc]. *)
Lemma launch_blend (m : devmem) pin pout inb outb :
  m !! pin = Some inb → m !! pout = Some outb → pin ≠ pout →
  length inb = cells D → length outb = cells D →
  launch grid block (blend_kernel D pout pin) m
  = Some (<[pout := DiffusionStep D inb]> m).
Proof.
  intros Hin Hout Hne Hlin Hlout. unfold launch.
  destruct (iterM_pointwise (blend_kernel D pout pin) pout m outb
    (λ i, stencil D inb (Z.of_nat i `mod` D) (Z.of_nat i `div` D)) offset_of
    (threads_of grid block)) as (buf & Hrun & Hlen & Hbuf).
  { apply Forall_forall. intros t Ht. by apply blend_settles. }
  { intros i Hi. apply offsets_cover. lia. }
  rewrite insert_id in Hrun by done. rewrite Hrun. do 2 f_equal.
  apply list_eq. intros i. destruct (decide (i < cells D)%nat) as [Hi|Hi].
  - rewrite Hbuf by lia. unfold cells in Hi. by rewrite DiffusionStep_lookup by lia.
  - rewrite !lookup_ge_None_2; [done| |]; rewrite ?DiffusionStep_length; unfold cells in *; lia.
Qed.

Lemma copy_const_settles (m : devmem) iptr cptr g mask t :
  m !! cptr = Some mask → iptr ≠ cptr →
  length g = cells D → length mask = cells D →
  t ∈ threads_of grid block →
  settles (copy_const_kernel iptr cptr) iptr m g
    (λ i, clamp_value (mask !!! i) (g !!! i)) offset_of t.
Proof.
  intros Hc Hne Hlg Hlm Ht.
  destruct (thread_pixel Hgeo t Ht) as (Hx & Hy & Ho).
  pose proof (offset_range D _ _ Hx Hy) as Hr.
  unfold offset_of, cells in *. split; [lia|].
  intros buf Hlen Hbuf. unfold copy_const_kernel.
  rewrite load_insert_ne by done.
  rewrite (load_in_range m cptr mask) by (try done; lia).
  cbn [mbind option_bind]. unfold clamp_value in *. fold zero.
  destruct (neb _ zero).
  - apply store_insert. lia.
  - rewrite list_insert_id; [done|]. by destruct Hbuf.
Qed.

(** A launch of [copy_const_kernel] is [SourceClampStep] in place. *)
Lemma launch_copy_const (m : devmem) iptr cptr g mask :
  m !! iptr = Some g → m !! cptr = Some mask → iptr ≠ cptr →
  length g = cells D → length mask = cells D →
  launch grid block (copy_const_kernel iptr cptr) m
  = Some (<[iptr := SourceClampStep mask g]> m).
Proof.
  intros Hi Hc Hne Hlg Hlm. unfold launch.
  destruct (iterM_pointwise (copy_const_kernel iptr cptr) iptr m g
    (λ i, clamp_value (mask !!! i) (g !!! i)) offset_of
    (threads_of grid block)) as (buf & Hrun & Hlen & Hbuf).
  { apply Forall_forall. intros t Ht. by apply copy_const_settles. }
  { intros i Hlt. apply offsets_cover. lia. }
  rewrite insert_id in Hrun by done. rewrite Hrun. do 2 f_equal.
  apply list_eq. intros i. destruct (decide (i < cells D)%nat) as [Hlt|Hge].
  - rewrite Hbuf by lia. by rewrite SourceClampStep_lookup by lia.
  - rewrite !lookup_ge_None_2; [done| |]; rewrite ?SourceClampStep_length; lia.
Qed.
End Refinement.

(** ** The loop of the frame routine *)

Lemma SourceClampStep_idem mask g :
  SourceClampStep mask (SourceClampStep mask g) = SourceClampStep mask g.
Proof.
  unfold SourceClampStep. revert g.
  induction mask as [|c mask IH]; intros [|v g]; simpl; [done..|].
  rewrite IH. f_equal. by destruct (neb c zero).
Qed.

Lemma SourceClampStep_zero mask g :
  Forall is_zero mask → SourceClampStep mask g = take (length mask) g.
Proof.
  unfold SourceClampStep. intros Hz. revert g.
  induction Hz as [|c mask Hc _ IH]; intros [|v g]; simpl; [done..|].
  rewrite IH. f_equal. unfold neb. unfold is_zero, eqb in Hc. by rewrite Hc.
Qed.

Lemma lookup_total_zero (g : list float) (i : nat) :
  Forall is_zero g → is_zero (g !!! i).
Proof.
  intros Hz. destruct (g !! i) as [v|] eqn:Hi.
  - rewrite (list_lookup_total_correct _ _ _ Hi). by eapply Forall_lookup_1.
  - rewrite list_lookup_total_alt, Hi. apply is_zero_zero.
Qed.

Lemma stencil_zero D g x y : Forall is_zero g → is_zero (stencil D g x y).
Proof.
  intros Hz. rewrite stencil_flat. by apply blend_value_zero; apply lookup_total_zero.
Qed.

Lemma DiffusionStep_zero D g :
  Forall is_zero g → Forall is_zero (DiffusionStep D g).
Proof.
  intros Hz. unfold DiffusionStep. apply Forall_fmap, Forall_seqZ.
  intros o Ho. by apply stencil_zero.
Qed.

Section DriverFacts.
Context {D : Z} {grid block : dim3} (Hgeo : geometry_ok D grid block).

(** One pass of the loop body of [anim_gpu]. *)
Lemma anim_step_ok d m mask cur nxt :
  state_ok D d m mask cur nxt →
  let cur' := SourceClampStep mask cur in
  let m1 := <[dev_inSrc d := cur']> m in
  let m2 := <[dev_outSrc d := DiffusionStep D cur']> m1 in
  launch grid block (copy_const_kernel (dev_inSrc d) (dev_constSrc d)) m = Some m1 ∧
  launch grid block (blend_kernel D (dev_outSrc d) (dev_inSrc d)) m1 = Some m2 ∧
  anim_step D grid block (d, m) = Some (swap d, m2) ∧
  state_ok D (swap d) m2 mask (DiffusionStep D cur') cur'.
Proof.
  intros [] cur' m1 m2.
  assert (length cur' = Z.to_nat (D * D)) as Hlen.
  { unfold cur'. rewrite SourceClampStep_length; lia. }
  assert (launch grid block (copy_const_kernel (dev_inSrc d) (dev_constSrc d)) m
          = Some m1) as H1.
  { by apply (launch_copy_const Hgeo). }
  assert (launch grid block (blend_kernel D (dev_outSrc d) (dev_inSrc d)) m1
          = Some m2) as H2.
  { apply (launch_blend Hgeo) with (outb := nxt); try done.
    - apply lookup_insert_eq.
    - unfold m1. by rewrite lookup_insert_ne. }
  split; [done|]. split; [done|]. split.
  - unfold anim_step. rewrite H1. simpl. rewrite H2. done.
  - split; cbn [swap dev_inSrc dev_outSrc dev_constSrc]; unfold m2, m1.
    + apply lookup_insert_eq.
    + rewrite lookup_insert_ne by done. apply lookup_insert_eq.
    + by rewrite !lookup_insert_ne.
    + done.
    + done.
    + done.
    + apply DiffusionStep_length.
    + done.
    + done.
Qed.

(** [n] passes of the loop body are [n] substeps of the specification. *)
Lemma anim_loop_ok (n : nat) d m mask cur nxt :
  state_ok D d m mask cur nxt →
  let b := Nat.iter n (substep D mask) (Buffers cur nxt) in
  ∃ m', for_range 0 (Z.of_nat n) (λ _, anim_step D grid block) (d, m)
        = Some (Nat.iter n swap d, m') ∧
        state_ok D (Nat.iter n swap d) m' mask (current b) (next b).
Proof.
  intros Hok b.
  destruct (for_range_inv
    (λ i '(d', m'), ∃ k : nat, i = Z.of_nat k ∧ d' = Nat.iter k swap d ∧
       let b := Nat.iter k (substep D mask) (Buffers cur nxt) in
       state_ok D d' m' mask (current b) (next b))
    0 (Z.of_nat n) (λ _, anim_step D grid block) (d, m))
    as ([d' m'] & Hrun & k & Hk & -> & Hst).
  - lia.
  - exists 0%nat. split; [done|]. split; [done|]. exact Hok.
  - intros i [d1 m1] Hi (k & -> & -> & Hst).
    destruct (anim_step_ok _ _ _ _ _ Hst) as (_ & _ & Hstep & Hst').
    eexists (_, _). split; [exact Hstep|].
    exists (S k). split; [lia|]. split; [done|]. exact Hst'.
  - apply Nat2Z.inj in Hk as <-. by exists m'.
Qed.
End DriverFacts.

Lemma swap_swap d : swap (swap d) = d.
Proof. by destruct d. Qed.

Lemma iter_swap_even (k : nat) d : Nat.iter (2 * k) swap d = d.
Proof.
  induction k as [|k IH]; [done|].
  replace (2 * S k)%nat with (S (S (2 * k))) by lia. simpl Nat.iter.
  simpl in IH. by rewrite IH, swap_swap.
Qed.

(** The launch geometry [anim_gpu] uses. *)
Lemma anim_geometry D :
  0 < D → D `mod` 16 = 0 → D * D + D ≤ 2147483648 →
  geometry_ok D (Dim3 (D `quot` 16) (D `quot` 16)) (Dim3 16 16).
Proof.
  intros HD Hmod Hsmall. rewrite Z.quot_div_nonneg by lia.
  pose proof (Z.div_mod D 16 ltac:(lia)). split; simpl; lia.
Qed.

Lemma geometry_ref :
  geometry_ok DIM_ref (Dim3 (DIM_ref `quot` 16) (DIM_ref `quot` 16)) (Dim3 16 16).
Proof. by apply anim_geometry. Qed.

Lemma SPEED_quarter : SPEED = S754_finite false (2 ^ 23) (-25).
Proof. reflexivity. Qed.

(** ** What [main] puts into the grids *)

Lemma offset_inj D x y x' y' :
  0 ≤ x < D → 0 ≤ x' < D → x + y * D = x' + y' * D → x = x' ∧ y = y'.
Proof.
  intros Hx Hx' Heq. split.
  - rewrite <-(offset_mod D x y), <-(offset_mod D x' y') by done. by rewrite Heq.
  - rewrite <-(offset_div D x y), <-(offset_div D x' y') by done. by rewrite Heq.
Qed.

Section Seeding.
Context {D : Z} (HD : 0 < D) (Hsmall : D * D < 2147483648).

Lemma grid_is_ext g f f' :
  grid_is D g f → (∀ x y, 0 ≤ x < D → 0 ≤ y < D → f x y = f' x y) → grid_is D g f'.
Proof. intros [Hlen Hg] Hf. split; [done|]. intros x y Hx Hy. by rewrite Hg, Hf. Qed.

Lemma hstore_in_range (g : list float) i v :
  0 ≤ i < Z.of_nat (length g) → hstore g i v = Some (<[Z.to_nat i := v]> g).
Proof. intros ?. unfold hstore. by rewrite decide_True. Qed.

Lemma hstore_cell g f x y i v :
  grid_is D g f → 0 ≤ x < D → 0 ≤ y < D → i = x + y * D →
  ∃ g', hstore g i v = Some g' ∧ grid_is D g' (paint_rect x (x + 1) y (y + 1) v f).
Proof.
  intros [Hlen Hg] Hx Hy ->. pose proof (offset_range D x y Hx Hy) as Hr.
  exists (<[Z.to_nat (x + y * D) := v]> g). split.
  { apply hstore_in_range. lia. }
  split; [by rewrite length_insert|].
  intros x' y' Hx' Hy'. pose proof (offset_range D x' y' Hx' Hy') as Hr'.
  unfold paint_rect, cell. case_decide as Hin.
  - assert (x' = x ∧ y' = y) as [-> ->] by lia.
    apply list_lookup_total_insert_eq. lia.
  - rewrite list_lookup_total_insert_ne; [by apply Hg|].
    intros Heq. apply Z2Nat.inj in Heq; [|lia..].
    apply offset_inj in Heq; [|done..]. lia.
Qed.

(** The nested loops that fill a rectangle. *)
Lemma fill_rect g f xlo xhi ylo yhi v :
  grid_is D g f → 0 ≤ xlo ≤ xhi → xhi ≤ D → 0 ≤ ylo ≤ yhi → yhi ≤ D →
  ∃ g', for_range ylo yhi (λ y temp,
          for_range xlo xhi (λ x temp,
            hstore temp (iadd x (imul y D)) v) temp) g = Some g' ∧
        grid_is D g' (paint_rect xlo xhi ylo yhi v f).
Proof.
  intros Hg Hx Hxhi Hy Hyhi.
  apply (for_range_inv (λ y t, grid_is D t (paint_rect xlo xhi ylo y v f))).
  - lia.
  - eapply grid_is_ext; [exact Hg|]. intros x y _ _. unfold paint_rect.
    by rewrite decide_False by lia.
  - intros y t Hyr Ht.
    destruct (for_range_inv
      (λ x t, grid_is D t (paint_rect xlo x y (y + 1) v (paint_rect xlo xhi ylo y v f)))
      xlo xhi (λ x temp, hstore temp (iadd x (imul y D)) v) t) as (t' & Hrun & Ht').
    + lia.
    + eapply grid_is_ext; [exact Ht|]. intros x' y' _ _. symmetry.
      unfold paint_rect at 1. by rewrite decide_False by lia.
    + intros x t1 Hxr Ht1.
      pose proof (offset_range D x y ltac:(lia) ltac:(lia)) as Hr.
      pose proof (offset_range D 0 y ltac:(lia) ltac:(lia)) as Hr0.
      rewrite imul_small, iadd_small by lia.
      destruct (hstore_cell t1 _ x y (x + y * D) v Ht1) as (t2 & Hst & Ht2);
        [lia..|done|].
      exists t2. split; [done|]. eapply grid_is_ext; [exact Ht2|].
      intros x' y' _ _. unfold paint_rect. repeat case_decide; try done; lia.
    + exists t'. split; [done|]. eapply grid_is_ext; [exact Ht'|].
      intros x' y' _ _. unfold paint_rect. repeat case_decide; try done; lia.
Qed.

(** The first loop of [main]: every cell is cleared, and set to [MAX_TEMP]
    inside the big rectangle. *)
Lemma clear_loop g :
  length g = Z.to_nat (D * D) →
  ∃ g', for_range 0 (imul D D) (λ i temp,
          temp ← hstore temp i (of_int 0);
          if decide (300 < i `rem` D ∧ i `rem` D < 600 ∧
                     310 < i `quot` D ∧ i `quot` D < 601)
          then hstore temp i MAX_TEMP
          else Some temp) g = Some g' ∧
        grid_is D g' (paint_rect 301 600 311 601 MAX_TEMP (λ _ _, zero)).
Proof.
  intros Hlen. rewrite imul_small by nia.
  set (F := paint_rect 301 600 311 601 MAX_TEMP (λ _ _, zero)).
  destruct (for_range_inv
    (λ i t, length t = Z.to_nat (D * D) ∧
            ∀ j, 0 ≤ j < i → t !!! Z.to_nat j = F (j `mod` D) (j `div` D))
    0 (D * D) (λ i temp,
          temp ← hstore temp i (of_int 0);
          if decide (300 < i `rem` D ∧ i `rem` D < 600 ∧
                     310 < i `quot` D ∧ i `quot` D < 601)
          then hstore temp i MAX_TEMP
          else Some temp) g) as (g' & Hrun & Hlen' & Hg').
  - nia.
  - split; [done|]. intros j Hj. lia.
  - intros i t Hi [Hlt Ht]. rewrite (hstore_in_range t i (of_int 0)) by lia.
    cbn [mbind option_bind].
    rewrite Z.rem_mod_nonneg, Z.quot_div_nonneg by lia.
    set (t1 := <[Z.to_nat i := of_int 0]> t).
    assert (length t1 = Z.to_nat (D * D)) as Hlt1 by (unfold t1; by rewrite length_insert).
    assert (∃ t2, (if decide (300 < i `mod` D ∧ i `mod` D < 600 ∧
                              310 < i `div` D ∧ i `div` D < 601)
                   then hstore t1 i MAX_TEMP else Some t1) = Some t2 ∧
                  t2 = <[Z.to_nat i := F (i `mod` D) (i `div` D)]> t) as (t2 & -> & ->).
    { unfold F, paint_rect. case_decide; rewrite ?decide_True, ?decide_False by lia.
      - rewrite hstore_in_range by lia. eexists. split; [done|].
        unfold t1. by rewrite list_insert_insert_eq.
      - eexists. split; [done|]. done. }
    eexists. split; [done|]. split; [by rewrite length_insert|].
    intros j Hj. destruct (decide (j = i)) as [->|Hne].
    + apply list_lookup_total_insert_eq. lia.
    + rewrite list_lookup_total_insert_ne by lia. apply Ht. lia.
  - exists g'. split; [done|]. split; [done|].
    intros x y Hx Hy. pose proof (offset_range D x y Hx Hy).
    unfold cell. rewrite Hg' by lia. by rewrite offset_mod, offset_div.
Qed.
End Seeding.

Section MainFacts.
Context {D : Z} (HD : D = 1024).

Local Lemma dim_pos : 0 < D.
Proof. lia. Qed.

Local Lemma dim_small : D * D < 2147483648.
Proof. rewrite HD. done. Qed.

Lemma seed_const_ok temp0 :
  length temp0 = Z.to_nat (D * D) →
  ∃ mask, seed_const D temp0 = Some mask ∧ grid_is D mask seeded_mask.
Proof.
  intros Hlen. unfold seed_const.
  destruct (clear_loop dim_pos dim_small temp0 Hlen) as (t0 & -> & H0).
  cbn [mbind option_bind].
  rewrite !imul_small, !iadd_small by lia.
  destruct (hstore_cell dim_pos t0 _ 100 100 (D * 100 + 100)
              (div (add MAX_TEMP MIN_TEMP) (of_int 2)) H0) as (t1 & -> & H1); [lia..|].
  cbn [mbind option_bind].
  destruct (hstore_cell dim_pos t1 _ 100 700 (D * 700 + 100) MIN_TEMP H1) as (t2 & -> & H2); [lia..|].
  cbn [mbind option_bind].
  destruct (hstore_cell dim_pos t2 _ 300 300 (D * 300 + 300) MIN_TEMP H2) as (t3 & -> & H3); [lia..|].
  cbn [mbind option_bind].
  destruct (hstore_cell dim_pos t3 _ 700 200 (D * 200 + 700) MIN_TEMP H3) as (t4 & -> & H4); [lia..|].
  cbn [mbind option_bind].
  destruct (fill_rect dim_pos dim_small t4 _ 400 500 800 900 MIN_TEMP H4)
    as (t5 & -> & H5); [lia..|].
  exists t5. split; [done|]. exact H5.
Qed.

Lemma seed_input_ok temp f :
  grid_is D temp f →
  ∃ cur, seed_input D temp = Some cur ∧
         grid_is D cur (paint_rect 0 200 800 D MAX_TEMP f).
Proof.
  intros Ht. unfold seed_input.
  apply (fill_rect dim_pos dim_small); [done|lia..].
Qed.

Lemma cudaMemcpy_all (m : devmem) dst buf src :
  m !! dst = Some buf →
  length buf = Z.to_nat (D * D) → length src = Z.to_nat (D * D) →
  cudaMemcpy dst src (image_size D) m = Some (<[dst := src]> m).
Proof.
  intros Hdst Hbuf Hsrc. pose proof dim_small. unfold cudaMemcpy.
  rewrite Hdst. cbn [mbind option_bind]. unfold image_size.
  rewrite imul_small by nia. rewrite decide_True by lia.
  rewrite take_ge, drop_ge, app_nil_r by lia. done.
Qed.

(** [main] leaves the mask and, behind [dev_inSrc], the mask's values with
    the extra hot rectangle; the content of [dev_outSrc] is whatever the
    allocation held. *)
Lemma main_ok in0 out0 const0 temp0 :
  length in0 = Z.to_nat (D * D) → length out0 = Z.to_nat (D * D) →
  length const0 = Z.to_nat (D * D) → length temp0 = Z.to_nat (D * D) →
  ∃ d m mask cur,
    main D in0 out0 const0 temp0 = Some (d, m) ∧
    state_ok D d m mask cur out0 ∧
    grid_is D mask seeded_mask ∧
    grid_is D cur (seeded_input D).
Proof.
  intros Hin Hout Hconst Htemp. unfold main, cudaMalloc.
  set (p_in := fresh (dom (∅ : devmem))).
  set (m1 := <[p_in := in0]> (∅ : devmem)).
  set (p_out := fresh (dom m1)).
  set (m2 := <[p_out := out0]> m1).
  set (p_const := fresh (dom m2)).
  set (m3 := <[p_const := const0]> m2).
  assert (p_out ≠ p_in) as Hoi.
  { intros Heq. apply (is_fresh (dom m1)). fold p_out. rewrite Heq.
    unfold m1. rewrite dom_insert_L. set_solver. }
  assert (p_const ≠ p_out ∧ p_const ≠ p_in) as [Hco Hci].
  { split; intros Heq; apply (is_fresh (dom m2)); fold p_const; rewrite Heq;
      unfold m2, m1; rewrite !dom_insert_L; set_solver. }
  destruct (seed_const_ok temp0 Htemp) as (mask & -> & Hmask).
  cbn [mbind option_bind].
  rewrite (cudaMemcpy_all m3 p_const const0 mask);
    [|apply lookup_insert_eq|done|apply Hmask].
  cbn [mbind option_bind].
  destruct (seed_input_ok mask _ Hmask) as (cur & -> & Hcur).
  cbn [mbind option_bind].
  rewrite (cudaMemcpy_all _ p_in in0 cur); [|
    unfold m3, m2, m1; rewrite !lookup_insert_ne by done; apply lookup_insert_eq
    |done|apply Hcur].
  cbn [mbind option_bind].
  eexists _, _, mask, cur. split; [done|]. split; [|done].
  split; cbn [dev_inSrc dev_outSrc dev_constSrc]; unfold m3, m2, m1.
  - apply lookup_insert_eq.
  - rewrite !lookup_insert_ne by done. apply lookup_insert_eq.
  - rewrite lookup_insert_ne by done. apply lookup_insert_eq.
  - done.
  - done.
  - done.
  - apply Hcur.
  - done.
  - apply Hmask.
Qed.
End MainFacts.

(** ** Facts about the example data *)

Lemma zeros_length D : length (zeros D) = Z.to_nat (D * D).
Proof. apply length_replicate. Qed.

Lemma zeros_zero D : Forall is_zero (zeros D).
Proof. apply Forall_replicate, is_zero_zero. Qed.

Lemma pin_cell_length D x y v g : length (pin_cell D x y v g) = length g.
Proof. apply length_insert. Qed.

Lemma cell_pin_eq D x y v g :
  0 ≤ x < D → 0 ≤ y < D → length g = Z.to_nat (D * D) →
  cell D (pin_cell D x y v g) x y = v.
Proof.
  intros Hx Hy Hlen. pose proof (offset_range D x y Hx Hy).
  apply list_lookup_total_insert_eq. lia.
Qed.

Lemma cell_pin_ne D x y x' y' v g :
  0 ≤ x < D → 0 ≤ y < D → 0 ≤ x' < D → 0 ≤ y' < D → (x, y) ≠ (x', y') →
  cell D (pin_cell D x y v g) x' y' = cell D g x' y'.
Proof.
  intros Hx Hy Hx' Hy' Hne. unfold cell, pin_cell.
  pose proof (offset_range D x y Hx Hy). pose proof (offset_range D x' y' Hx' Hy').
  apply list_lookup_total_insert_ne. intros Heq. apply Z2Nat.inj in Heq; [|lia..].
  apply offset_inj in Heq as [-> ->]; done.
Qed.

Lemma state_ok_ex D mask cur nxt :
  length mask = Z.to_nat (D * D) → length cur = Z.to_nat (D * D) →
  length nxt = Z.to_nat (D * D) →
  state_ok D d_ex (m_ex mask cur nxt) mask cur nxt.
Proof. intros Hm Hc Hn. by split. Qed.

Lemma SourceClampStep_cell D mask g x y :
  0 ≤ x < D → 0 ≤ y < D →
  length mask = Z.to_nat (D * D) → length g = Z.to_nat (D * D) →
  cell D (SourceClampStep mask g) x y = clamp_value (cell D mask x y) (cell D g x y).
Proof.
  intros Hx Hy Hm Hg. pose proof (offset_range D x y Hx Hy).
  unfold cell. apply list_lookup_total_correct.
  apply SourceClampStep_lookup; lia.
Qed.

(** * The claims *)

(** C1.  Interior cells.  After a launch of [blend_kernel] from the buffer
    [inb] into another buffer, every cell (x, y) with 0 < x < D-1 and
    0 < y < D-1 of the output holds
    in[x,y] + SPEED * (in[x,y-1] + in[x,y+1] + in[x-1,y] + in[x+1,y] - 4*in[x,y]),
    evaluated in binary32 in this order.  [D] is any dimension the launch
    geometry covers; [geometry_ref] is the case D = 1024 of the file and
    [SPEED_quarter] gives SPEED = 0.25. *)
Theorem blend_kernel_interior D grid block (m : devmem) pin pout inb outb x y :
  geometry_ok D grid block →
  m !! pin = Some inb → m !! pout = Some outb → pin ≠ pout →
  length inb = Z.to_nat (D * D) → length outb = Z.to_nat (D * D) →
  0 < x < D - 1 → 0 < y < D - 1 →
  ∃ m' out,
    launch grid block (blend_kernel D pout pin) m = Some m' ∧
    m' !! pout = Some out ∧
    cell D out x y =
      add (cell D inb x y)
          (mul SPEED
             (sub (add (add (add (cell D inb x (y - 1)) (cell D inb x (y + 1)))
                            (cell D inb (x - 1) y))
                       (cell D inb (x + 1) y))
                  (mul (of_int 4) (cell D inb x y)))).
Proof.
  intros Hgeo Hin Hout Hne Hlin Hlout Hx Hy.
  exists (<[pout := DiffusionStep D inb]> m), (DiffusionStep D inb).
  split; [by apply (launch_blend Hgeo) with (outb := outb)|].
  split; [apply lookup_insert_eq|].
  rewrite DiffusionStep_cell by lia.
  unfold stencil, north, south, west, east.
  by rewrite !decide_False by lia.
Qed.

(** C2.  Boundary rule.  For every cell (x, y) of the grid, the value
    [blend_kernel] stores is the stencil expression in which the west term is
    in[x,y] itself when x = 0 (and in[x-1,y] otherwise), the east term is
    in[x,y] itself when x = D-1, the north term is in[x,y] itself when y = 0
    and the south term is in[x,y] itself when y = D-1.  The thread of the
    cell reads these terms at [left], [right], [top] and [bottom], which are
    the cell's own offset in exactly these cases and the neighbour's offset
    otherwise: no wrapped and no out-of-range cell is read. *)
Theorem blend_kernel_boundary D grid block (m : devmem) pin pout inb outb x y :
  geometry_ok D grid block →
  m !! pin = Some inb → m !! pout = Some outb → pin ≠ pout →
  length inb = Z.to_nat (D * D) → length outb = Z.to_nat (D * D) →
  0 ≤ x < D → 0 ≤ y < D →
  (∃ m' out,
     launch grid block (blend_kernel D pout pin) m = Some m' ∧
     m' !! pout = Some out ∧
     let self := cell D inb x y in
     let north_term := if decide (y = 0) then self else cell D inb x (y - 1) in
     let south_term := if decide (y = D - 1) then self else cell D inb x (y + 1) in
     let west_term := if decide (x = 0) then self else cell D inb (x - 1) y in
     let east_term := if decide (x = D - 1) then self else cell D inb (x + 1) y in
     cell D out x y = blend_value self north_term south_term west_term east_term) ∧
  (∃ t, t ∈ threads_of grid block ∧ pixel_x t = x ∧ pixel_y t = y ∧
     let i := blend_indices D t in
     let self := x + y * D in
     s_offset i = self ∧
     s_left i = (if decide (x = 0) then self else (x - 1) + y * D) ∧
     s_right i = (if decide (x = D - 1) then self else (x + 1) + y * D) ∧
     s_top i = (if decide (y = 0) then self else x + (y - 1) * D) ∧
     s_bottom i = (if decide (y = D - 1) then self else x + (y + 1) * D)).
Proof.
  intros Hgeo Hin Hout Hne Hlin Hlout Hx Hy. split.
  - exists (<[pout := DiffusionStep D inb]> m), (DiffusionStep D inb).
    split; [by apply (launch_blend Hgeo) with (outb := outb)|].
    split; [apply lookup_insert_eq|].
    cbv zeta. rewrite DiffusionStep_cell by lia.
    unfold stencil, blend_value, north, south, west, east.
    by rewrite (mul_comm (of_int 4)).
  - destruct (thread_cover Hgeo x y Hx Hy) as (t & Ht & Htx & Hty).
    exists t. split; [done|]. split; [done|]. split; [done|].
    pose proof (blend_indices_grid Hgeo t Ht) as Hidx. cbv zeta in Hidx |- *.
    rewrite Hidx, Htx, Hty. cbn [s_offset s_left s_right s_top s_bottom].
    clear Hidx. repeat split; try done; case_decide; lia.
Qed.

(** The frame routine, in the specification's terms: the loop leaves the
    buffers that ninety substeps produce, the pointers end where they
    started, and the bitmap is made from the buffer behind [dev_inSrc]. *)
Lemma anim_gpu_ok D {Bitmap : Type} (float_to_color : list float → Bitmap)
    d m mask cur nxt :
  0 < D → D `mod` 16 = 0 → D * D + D ≤ 2147483648 →
  state_ok D d m mask cur nxt →
  let b90 := Nat.iter 90 (substep D mask) (Buffers cur nxt) in
  ∃ m', anim_gpu D float_to_color d m = Some (d, m', float_to_color (current b90)) ∧
        state_ok D d m' mask (current b90) (next b90).
Proof.
  intros HD Hmod Hsmall Hok b90.
  pose proof (anim_geometry D HD Hmod Hsmall) as Hgeo.
  destruct (anim_loop_ok Hgeo 90 d m mask cur nxt Hok) as (m' & Hrun & Hok').
  change (Z.of_nat 90) with 90 in Hrun.
  change 90%nat with (2 * 45)%nat in Hrun, Hok' at 1.
  rewrite (iter_swap_even 45 d) in Hrun, Hok'.
  exists m'. split; [|exact Hok'].
  unfold anim_gpu. rewrite Hrun. cbn [mbind option_bind].
  rewrite (ok_in _ _ _ _ _ _ Hok'). done.
Qed.

(** C3.  One call of [anim_gpu] performs ninety substeps and hands the
    resulting current grid to the render bridge: the buffer behind
    [dev_inSrc] and the bitmap are those of ninety iterations of the
    specification's substep.  Each pass of the loop is, in order, a launch
    of [copy_const_kernel] that clamps the buffer behind [dev_inSrc] in
    place, a launch of [blend_kernel] that diffuses from it into the buffer
    behind [dev_outSrc], and a swap that exchanges the two pointers and
    leaves device memory as the second launch produced it. *)
Theorem anim_gpu_frame D {Bitmap : Type} (float_to_color : list float → Bitmap)
    d m mask cur nxt :
  0 < D → D `mod` 16 = 0 → D * D + D ≤ 2147483648 →
  state_ok D d m mask cur nxt →
  let blocks := Dim3 (D `quot` 16) (D `quot` 16) in
  let threads := Dim3 16 16 in
  let b90 := Nat.iter 90 (substep D mask) (Buffers cur nxt) in
  (∃ m', anim_gpu D float_to_color d m
         = Some (d, m', float_to_color (current b90)) ∧
         m' !! dev_inSrc d = Some (current b90) ∧
         m' !! dev_outSrc d = Some (next b90) ∧
         m' !! dev_constSrc d = Some mask) ∧
  (∀ d1 m1 cur1 nxt1,
     state_ok D d1 m1 mask cur1 nxt1 →
     let mA := <[dev_inSrc d1 := SourceClampStep mask cur1]> m1 in
     let mB := <[dev_outSrc d1 := DiffusionStep D (SourceClampStep mask cur1)]> mA in
     launch blocks threads (copy_const_kernel (dev_inSrc d1) (dev_constSrc d1)) m1
       = Some mA ∧
     launch blocks threads (blend_kernel D (dev_outSrc d1) (dev_inSrc d1)) mA
       = Some mB ∧
     anim_step D blocks threads (d1, m1) = Some (swap d1, mB) ∧
     dev_inSrc (swap d1) = dev_outSrc d1 ∧
     dev_outSrc (swap d1) = dev_inSrc d1 ∧
     state_ok D (swap d1) mB mask
       (current (substep D mask (Buffers cur1 nxt1)))
       (next (substep D mask (Buffers cur1 nxt1)))).
Proof.
  intros HD Hmod Hsmall Hok blocks threads b90. split.
  - destruct (anim_gpu_ok D float_to_color d m mask cur nxt HD Hmod Hsmall Hok)
      as (m' & Hrun & Hok').
    exists m'. split; [exact Hrun|]. split; [apply Hok'|]. split; apply Hok'.
  - intros d1 m1 cur1 nxt1 Hok1 mA mB.
    pose proof (anim_geometry D HD Hmod Hsmall) as Hgeo.
    destruct (anim_step_ok Hgeo d1 m1 mask cur1 nxt1 Hok1) as (H1 & H2 & H3 & H4).
    split; [exact H1|]. split; [exact H2|]. split; [exact H3|].
    split; [done|]. split; [done|]. exact H4.
Qed.

(** C4.  After a launch of [copy_const_kernel], a cell whose mask value is
    different from zero holds the mask's value, whatever it held before, and
    a cell whose mask value equals zero holds what it held before. *)
Theorem copy_const_kernel_clamps D grid block (m : devmem) iptr cptr g mask x y :
  geometry_ok D grid block →
  m !! iptr = Some g → m !! cptr = Some mask → iptr ≠ cptr →
  length g = Z.to_nat (D * D) → length mask = Z.to_nat (D * D) →
  0 ≤ x < D → 0 ≤ y < D →
  ∃ m' g',
    launch grid block (copy_const_kernel iptr cptr) m = Some m' ∧
    m' !! iptr = Some g' ∧
    (neb (cell D mask x y) (of_int 0) = true → cell D g' x y = cell D mask x y) ∧
    (eqb (cell D mask x y) (of_int 0) = true → cell D g' x y = cell D g x y).
Proof.
  intros Hgeo Hi Hc Hne Hlg Hlm Hx Hy.
  exists (<[iptr := SourceClampStep mask g]> m), (SourceClampStep mask g).
  split; [by apply (launch_copy_const Hgeo)|].
  split; [apply lookup_insert_eq|].
  rewrite SourceClampStep_cell by done. unfold clamp_value, neb, eqb. fold zero.
  split; intros ->; done.
Qed.

(** C7.  A second launch of [copy_const_kernel] right after the first
    changes nothing. *)
Theorem copy_const_kernel_idempotent D grid block (m : devmem) iptr cptr g mask :
  geometry_ok D grid block →
  m !! iptr = Some g → m !! cptr = Some mask → iptr ≠ cptr →
  length g = Z.to_nat (D * D) → length mask = Z.to_nat (D * D) →
  ∃ m',
    launch grid block (copy_const_kernel iptr cptr) m = Some m' ∧
    launch grid block (copy_const_kernel iptr cptr) m' = Some m'.
Proof.
  intros Hgeo Hi Hc Hne Hlg Hlm.
  exists (<[iptr := SourceClampStep mask g]> m).
  split; [by apply (launch_copy_const Hgeo)|].
  rewrite (launch_copy_const Hgeo _ iptr cptr (SourceClampStep mask g) mask).
  - by rewrite insert_insert_eq, SourceClampStep_idem.
  - apply lookup_insert_eq.
  - by rewrite lookup_insert_ne.
  - done.
  - unfold cells. rewrite SourceClampStep_length; lia.
  - done.
Qed.

Lemma substep_zero D mask b (n : nat) :
  Forall is_zero mask → Forall is_zero (current b) →
  Forall is_zero (current (Nat.iter n (substep D mask) b)).
Proof.
  intros Hm Hb. induction n as [|n IH]; [done|].
  cbn [Nat.iter nat_rect]. unfold substep at 1. cbn [current].
  apply DiffusionStep_zero. rewrite SourceClampStep_zero by done.
  by apply Forall_take.
Qed.

(** C8.  With every cell of the current grid and of the mask equal to zero,
    the current grid after any number of passes of the loop body (clamp,
    diffuse, swap) still has every cell equal to zero. *)
Theorem zero_grid_stays_zero D grid block d m mask cur nxt (n : nat) :
  geometry_ok D grid block →
  state_ok D d m mask cur nxt →
  Forall is_zero cur → Forall is_zero mask →
  ∃ d' m' cur',
    for_range 0 (Z.of_nat n) (λ _, anim_step D grid block) (d, m) = Some (d', m') ∧
    m' !! dev_inSrc d' = Some cur' ∧
    length cur' = Z.to_nat (D * D) ∧
    Forall is_zero cur'.
Proof.
  intros Hgeo Hok Hcur Hmask.
  destruct (anim_loop_ok Hgeo n d m mask cur nxt Hok) as (m' & Hrun & []).
  eexists _, m', _. split; [exact Hrun|]. split; [done|]. split; [done|].
  by apply substep_zero.
Qed.

(** C9.  No access is out of range.  For every thread of a launch that
    covers the grid, the pixel lies in the grid and the offset and the four
    boundary-adjusted indices [left], [right], [top], [bottom] lie in
    [0, D*D); on buffers of D*D cells both kernels therefore return a
    memory for every thread, and so do their launches. *)
Theorem kernels_in_range D grid block t :
  geometry_ok D grid block →
  t ∈ threads_of grid block →
  let i := blend_indices D t in
  (0 ≤ pixel_x t < D ∧ 0 ≤ pixel_y t < D) ∧
  (0 ≤ pixel_offset t < D * D ∧ s_offset i = pixel_offset t ∧
   0 ≤ s_left i < D * D ∧ 0 ≤ s_right i < D * D ∧
   0 ≤ s_top i < D * D ∧ 0 ≤ s_bottom i < D * D) ∧
  (∀ (m : devmem) p q a b,
     m !! p = Some a → m !! q = Some b →
     length a = Z.to_nat (D * D) → length b = Z.to_nat (D * D) →
     is_Some (blend_kernel D p q t m) ∧
     is_Some (copy_const_kernel p q t m) ∧
     (p ≠ q →
      is_Some (launch grid block (blend_kernel D p q) m) ∧
      is_Some (launch grid block (copy_const_kernel p q) m))).
Proof.
  intros Hgeo Ht i.
  destruct (thread_pixel Hgeo t Ht) as (Hx & Hy & Ho).
  pose proof (offset_range D _ _ Hx Hy) as Hr.
  pose proof (blend_indices_grid Hgeo t Ht) as Hidx. cbv zeta in Hidx.
  pose proof (geo_pos _ _ _ Hgeo) as HD.
  assert (0 ≤ s_left i < D * D ∧ 0 ≤ s_right i < D * D ∧
          0 ≤ s_top i < D * D ∧ 0 ≤ s_bottom i < D * D) as (Hl & Hrt & Htop & Hbot).
  { unfold i. rewrite Hidx. clear Hidx. cbn [s_left s_right s_top s_bottom].
    repeat split; case_decide; nia. }
  assert (s_offset i = pixel_offset t) as Hoff by (unfold i; by rewrite Hidx, Ho).
  split; [done|]. split; [rewrite Hoff; lia|].
  intros m p q a b Hp Hq Hla Hlb. split; [|split].
  - unfold blend_kernel. fold i.
    rewrite !(load_in_range m q b) by (try done; lia).
    cbn [mbind option_bind]. unfold store. rewrite Hp. cbn [mbind option_bind].
    rewrite decide_True by lia. done.
  - unfold copy_const_kernel.
    rewrite (load_in_range m q b) by (try done; lia).
    cbn [mbind option_bind]. destruct (neb _ _); [|done].
    unfold store. rewrite Hp. cbn [mbind option_bind].
    rewrite decide_True by lia. done.
  - intros Hne. split.
    + by rewrite (launch_blend Hgeo m q p b a).
    + by rewrite (launch_copy_const Hgeo m p q a b).
Qed.

(** ** A pinned cell after the last diffusion *)

Lemma mask_hot_length D : length (mask_hot D) = Z.to_nat (D * D).
Proof. unfold mask_hot. rewrite !pin_cell_length. apply zeros_length. Qed.

Lemma mask_hot_cells D :
  3 ≤ D →
  cell D (mask_hot D) 1 1 = MAX_TEMP ∧
  cell D (mask_hot D) 1 0 = half ∧ cell D (mask_hot D) 1 2 = half ∧
  cell D (mask_hot D) 0 1 = half ∧ cell D (mask_hot D) 2 1 = half.
Proof.
  intros HD. unfold mask_hot.
  repeat split;
    rewrite ?cell_pin_ne by (lia || congruence);
    (apply cell_pin_eq; [lia|lia|]);
    rewrite ?pin_cell_length; apply zeros_length.
Qed.

Lemma clamp_value_pinned c v : neb c zero = true → clamp_value c v = c.
Proof. unfold clamp_value. by intros ->. Qed.

Lemma pinned_cell_cooled D mask g x y :
  0 < x < D - 1 → 0 < y < D - 1 →
  length mask = Z.to_nat (D * D) → length g = Z.to_nat (D * D) →
  cell D mask x y = MAX_TEMP →
  cell D mask x (y - 1) = half → cell D mask x (y + 1) = half →
  cell D mask (x - 1) y = half → cell D mask (x + 1) y = half →
  cell D (DiffusionStep D (SourceClampStep mask g)) x y = half.
Proof.
  intros Hx Hy Hm Hg Hc Hn Hs Hw He.
  rewrite DiffusionStep_cell by lia.
  unfold stencil, north, south, west, east. rewrite !decide_False by lia.
  rewrite !SourceClampStep_cell by (lia || done).
  rewrite Hc, Hn, Hs, Hw, He. by rewrite !clamp_value_pinned.
Qed.

Lemma iter_succ {A} (n : nat) (f : A → A) (x : A) :
  Nat.iter (S n) f x = f (Nat.iter n f x).
Proof. reflexivity. Qed.

Lemma substep_length D mask b (n : nat) :
  length mask = Z.to_nat (D * D) → length (current b) = Z.to_nat (D * D) →
  length (current (Nat.iter n (substep D mask) b)) = Z.to_nat (D * D).
Proof. intros Hm Hb. destruct n; [done|]. apply DiffusionStep_length. Qed.

(** C10.  The grid handed to [float_to_color] is what [blend_kernel] wrote
    in the ninetieth pass: the diffusion of the clamped grid of that pass,
    with no clamp after it.  So a pinned cell can be shown with a value that
    is not the mask's: with the mask [mask_hot] at D = 1024, cell (1, 1) is
    pinned to 1.0 and is shown as 0.5, whatever the grid was. *)
Theorem anim_gpu_shows_unclamped :
  (∀ D (Bitmap : Type) (float_to_color : list float → Bitmap) d m mask cur nxt,
     0 < D → D `mod` 16 = 0 → D * D + D ≤ 2147483648 →
     state_ok D d m mask cur nxt →
     let b89 := Nat.iter 89 (substep D mask) (Buffers cur nxt) in
     let shown := DiffusionStep D (SourceClampStep mask (current b89)) in
     ∃ m', anim_gpu D float_to_color d m = Some (d, m', float_to_color shown) ∧
           m' !! dev_inSrc d = Some shown) ∧
  (∃ mask cur nxt x y m' shown,
     state_ok DIM_ref d_ex (m_ex mask cur nxt) mask cur nxt ∧
     (0 ≤ x < DIM_ref ∧ 0 ≤ y < DIM_ref) ∧
     neb (cell DIM_ref mask x y) (of_int 0) = true ∧
     anim_gpu DIM_ref id d_ex (m_ex mask cur nxt) = Some (d_ex, m', shown) ∧
     neb (cell DIM_ref shown x y) (cell DIM_ref mask x y) = true).
Proof.
  assert (∀ D (Bitmap : Type) (float_to_color : list float → Bitmap) d m mask cur nxt,
     0 < D → D `mod` 16 = 0 → D * D + D ≤ 2147483648 →
     state_ok D d m mask cur nxt →
     let b89 := Nat.iter 89 (substep D mask) (Buffers cur nxt) in
     let shown := DiffusionStep D (SourceClampStep mask (current b89)) in
     ∃ m', anim_gpu D float_to_color d m = Some (d, m', float_to_color shown) ∧
           m' !! dev_inSrc d = Some shown) as Hraw.
  { intros D Bitmap float_to_color d m mask cur nxt HD Hmod Hsmall Hok b89 shown.
    destruct (anim_gpu_ok D float_to_color d m mask cur nxt HD Hmod Hsmall Hok)
      as (m' & Hrun & Hok').
    apply ok_in in Hok'. rewrite (iter_succ 89) in Hrun, Hok'.
    exists m'. split; [exact Hrun|exact Hok']. }
  split; [exact Hraw|].
  pose proof (state_ok_ex DIM_ref (mask_hot DIM_ref) (zeros DIM_ref) (zeros DIM_ref)
                (mask_hot_length _) (zeros_length _) (zeros_length _)) as Hok.
  destruct (Hraw DIM_ref _ id _ _ _ _ _ ltac:(reflexivity) ltac:(reflexivity)
              ltac:(unfold DIM_ref; lia) Hok) as (m' & Hrun & _).
  destruct (mask_hot_cells DIM_ref ltac:(unfold DIM_ref; lia))
    as (Hc & Hn & Hs & Hw & He).
  eexists (mask_hot DIM_ref), (zeros DIM_ref), (zeros DIM_ref), 1, 1, m', _.
  split; [exact Hok|]. split; [unfold DIM_ref; lia|].
  split; [rewrite Hc; reflexivity|].
  split; [exact Hrun|]. unfold id.
  rewrite (pinned_cell_cooled DIM_ref (mask_hot DIM_ref) _ 1 1
             ltac:(unfold DIM_ref; lia) ltac:(unfold DIM_ref; lia)
             (mask_hot_length _)
             (substep_length DIM_ref (mask_hot DIM_ref)
                (Buffers (zeros DIM_ref) (zeros DIM_ref)) 89
                (mask_hot_length _) (zeros_length _))
             Hc Hn Hs Hw He).
  rewrite Hc. reflexivity.
Qed.

(** ** One substep on the 4x4 example *)

(** C6 (amended).  On a 4x4 grid with the mask zero except cell (0,0) = 1.0,
    the grid zero and SPEED = 0.25, one pass of the loop body leaves as
    current grid the diffusion of the clamped grid: cell (0,0) = 0.5, cells
    (1,0) and (0,1) = 0.25, that is 0.25 above their value 0 under diffusion
    alone, and every other cell 0.  The clamped grid, with cell (0,0) = 1.0,
    is the buffer that the swap labels as next. *)
Theorem substep_4x4 grid block d m nxt :
  geometry_ok 4 grid block →
  state_ok 4 d m mask4 (zeros 4) nxt →
  ∃ d' m',
    anim_step 4 grid block (d, m) = Some (d', m') ∧
    m' !! dev_inSrc d' = Some after4 ∧
    after4 = DiffusionStep 4 (SourceClampStep mask4 (zeros 4)) ∧
    m' !! dev_outSrc d' = Some mask4 ∧
    cell 4 mask4 0 0 = lit 1 1 ∧
    DiffusionStep 4 (zeros 4) = zeros 4 ∧
    cell 4 after4 1 0 = add (cell 4 (DiffusionStep 4 (zeros 4)) 1 0) quarter ∧
    cell 4 after4 0 1 = add (cell 4 (DiffusionStep 4 (zeros 4)) 0 1) quarter.
Proof.
  intros Hgeo Hok.
  destruct (anim_step_ok Hgeo d m mask4 (zeros 4) nxt Hok) as (_ & _ & Hstep & Hok').
  eexists _, _. split; [exact Hstep|].
  assert (SourceClampStep mask4 (zeros 4) = mask4) as Hclamp by (by vm_compute).
  assert (DiffusionStep 4 mask4 = after4) as Hdiff by (by vm_compute).
  rewrite Hclamp in Hok' |- *. rewrite Hdiff in Hok' |- *.
  split; [exact (ok_in _ _ _ _ _ _ Hok')|]. split; [reflexivity|].
  split; [exact (ok_out _ _ _ _ _ _ Hok')|].
  vm_compute. by repeat split.
Qed.

(** The state of the 4x4 example: one thread block of 4x4 threads. *)
Lemma geometry_4x4 : geometry_ok 4 (Dim3 1 1) (Dim3 4 4).
Proof. by split. Qed.

(** C6, as stated, fails: after one pass of the loop body on the 4x4
    example the current grid has 0.5 at cell (0,0), not the mask's 1.0. *)
Lemma substep_4x4_origin_is_half :
  ∃ d' m' out,
    anim_step 4 (Dim3 1 1) (Dim3 4 4) (d_ex, m_ex mask4 (zeros 4) (zeros 4))
      = Some (d', m') ∧
    m' !! dev_inSrc d' = Some out ∧
    cell 4 out 0 0 = lit 1 2 ∧
    eqb (cell 4 out 0 0) (lit 1 1) = false.
Proof.
  destruct (anim_step_ok geometry_4x4 d_ex _ mask4 (zeros 4) (zeros 4)
              (state_ok_ex 4 mask4 (zeros 4) (zeros 4) eq_refl eq_refl eq_refl))
    as (_ & _ & Hstep & Hok).
  eexists _, _, _. split; [exact Hstep|]. split; [exact (ok_in _ _ _ _ _ _ Hok)|].
  clear Hstep Hok. vm_compute. split; reflexivity.
Qed.

(** ** The grids [main] hands to the first frame *)

(** C5 (amended).  [main] leaves three distinct buffers of 1024 x 1024 cells.
    The mask is [seeded_mask].  The initial current grid holds [MAX_TEMP] in
    the rectangle 0 <= x < 200, 800 <= y < 1024 and, at every other cell, the
    mask's value at that cell; the mask is zero on the whole rectangle, so
    the rectangle lies apart from the mask's regions. *)
Theorem main_seeds_grids in0 out0 const0 temp0 :
  length in0 = Z.to_nat (DIM_ref * DIM_ref) →
  length out0 = Z.to_nat (DIM_ref * DIM_ref) →
  length const0 = Z.to_nat (DIM_ref * DIM_ref) →
  length temp0 = Z.to_nat (DIM_ref * DIM_ref) →
  ∃ d m mask cur,
    main DIM_ref in0 out0 const0 temp0 = Some (d, m) ∧
    state_ok DIM_ref d m mask cur out0 ∧
    ∀ x y, 0 ≤ x < DIM_ref → 0 ≤ y < DIM_ref →
      cell DIM_ref mask x y = seeded_mask x y ∧
      cell DIM_ref cur x y =
        (if decide (0 ≤ x < 200 ∧ 800 ≤ y < DIM_ref) then MAX_TEMP
         else cell DIM_ref mask x y) ∧
      (0 ≤ x < 200 ∧ 800 ≤ y < DIM_ref → cell DIM_ref mask x y = zero).
Proof.
  intros Hin Hout Hconst Htemp.
  destruct (main_ok (D:=DIM_ref) eq_refl in0 out0 const0 temp0 Hin Hout Hconst Htemp)
    as (d & m & mask & cur & Hmain & Hok & [_ Hmask] & [_ Hcur]).
  exists d, m, mask, cur. split; [exact Hmain|]. split; [exact Hok|].
  intros x y Hx Hy. rewrite (Hmask x y Hx Hy), (Hcur x y Hx Hy).
  split; [done|]. split; [done|].
  intros Hrect. unfold DIM_ref in *. unfold seeded_mask, paint_rect.
  by rewrite !decide_False by lia.
Qed.

(** C5, as stated, fails: the initial current grid is not zero outside one
    rectangle of [MAX_TEMP] cells.  Cell (100, 100) is different from zero
    and different from [MAX_TEMP]: it holds the mask's (MAX_TEMP+MIN_TEMP)/2,
    left in [temp] from the seeding of the mask. *)
Lemma main_input_keeps_mask_values :
  ∃ d m cur,
    main DIM_ref (zeros DIM_ref) (zeros DIM_ref) (zeros DIM_ref) (zeros DIM_ref)
      = Some (d, m) ∧
    m !! dev_inSrc d = Some cur ∧
    eqb (cell DIM_ref cur 100 100) (of_int 0) = false ∧
    eqb (cell DIM_ref cur 100 100) MAX_TEMP = false.
Proof.
  destruct (main_ok (D:=DIM_ref) eq_refl (zeros DIM_ref) (zeros DIM_ref)
              (zeros DIM_ref) (zeros DIM_ref)
              (zeros_length _) (zeros_length _) (zeros_length _) (zeros_length _))
    as (d & m & mask & cur & Hmain & Hok & _ & [_ Hcur]).
  exists d, m, cur. split; [exact Hmain|]. split; [exact (ok_in _ _ _ _ _ _ Hok)|].
  rewrite (Hcur 100 100) by (unfold DIM_ref; lia).
  clear. vm_compute. split; reflexivity.
Qed.

(** * Instances at the file's configuration *)

Lemma grid_ex_length : length grid_ex = Z.to_nat (DIM_ref * DIM_ref).
Proof. unfold grid_ex. rewrite pin_cell_length. apply zeros_length. Qed.

Lemma thread_ex_launched : thread_ex ∈ threads_of blocks_ref threads_ref.
Proof. apply elem_of_threads_of. by repeat split. Qed.

Lemma blend_kernel_interior_witness :
  ∃ m' out,
    launch blocks_ref threads_ref (blend_kernel DIM_ref 2%positive 1%positive)
      (m_ex (zeros DIM_ref) grid_ex (zeros DIM_ref)) = Some m' ∧
    m' !! 2%positive = Some out ∧
    cell DIM_ref out 300 201 =
      add (cell DIM_ref grid_ex 300 201)
          (mul SPEED
             (sub (add (add (add (cell DIM_ref grid_ex 300 (201 - 1))
                                 (cell DIM_ref grid_ex 300 (201 + 1)))
                            (cell DIM_ref grid_ex (300 - 1) 201))
                       (cell DIM_ref grid_ex (300 + 1) 201))
                  (mul (of_int 4) (cell DIM_ref grid_ex 300 201)))).
Proof.
  apply (blend_kernel_interior DIM_ref blocks_ref threads_ref
           (m_ex (zeros DIM_ref) grid_ex (zeros DIM_ref))
           1%positive 2%positive grid_ex (zeros DIM_ref) 300 201).
  - exact geometry_ref.
  - reflexivity.
  - reflexivity.
  - discriminate.
  - exact grid_ex_length.
  - apply zeros_length.
  - unfold DIM_ref. lia.
  - unfold DIM_ref. lia.
Defined.

Lemma blend_kernel_boundary_witness :
  ∃ m' out,
    launch blocks_ref threads_ref (blend_kernel DIM_ref 2%positive 1%positive)
      (m_ex (zeros DIM_ref) grid_ex (zeros DIM_ref)) = Some m' ∧
    m' !! 2%positive = Some out ∧
    let self := cell DIM_ref grid_ex 0 1023 in
    let north_term := if decide (1023 = 0) then self
                      else cell DIM_ref grid_ex 0 (1023 - 1) in
    let south_term := if decide (1023 = DIM_ref - 1) then self
                      else cell DIM_ref grid_ex 0 (1023 + 1) in
    let west_term := if decide (0 = 0) then self
                     else cell DIM_ref grid_ex (0 - 1) 1023 in
    let east_term := if decide (0 = DIM_ref - 1) then self
                     else cell DIM_ref grid_ex (0 + 1) 1023 in
    cell DIM_ref out 0 1023 = blend_value self north_term south_term west_term east_term.
Proof.
  apply (blend_kernel_boundary DIM_ref blocks_ref threads_ref
           (m_ex (zeros DIM_ref) grid_ex (zeros DIM_ref))
           1%positive 2%positive grid_ex (zeros DIM_ref) 0 1023).
  - exact geometry_ref.
  - reflexivity.
  - reflexivity.
  - discriminate.
  - exact grid_ex_length.
  - apply zeros_length.
  - unfold DIM_ref. lia.
  - unfold DIM_ref. lia.
Defined.

Lemma anim_gpu_frame_witness :
  let b90 := Nat.iter 90 (substep DIM_ref (mask_hot DIM_ref))
               (Buffers grid_ex (zeros DIM_ref)) in
  ∃ m', anim_gpu DIM_ref id d_ex (m_ex (mask_hot DIM_ref) grid_ex (zeros DIM_ref))
        = Some (d_ex, m', id (current b90)) ∧
        m' !! dev_inSrc d_ex = Some (current b90) ∧
        m' !! dev_outSrc d_ex = Some (next b90) ∧
        m' !! dev_constSrc d_ex = Some (mask_hot DIM_ref).
Proof.
  apply (anim_gpu_frame DIM_ref id d_ex
           (m_ex (mask_hot DIM_ref) grid_ex (zeros DIM_ref))
           (mask_hot DIM_ref) grid_ex (zeros DIM_ref)).
  - reflexivity.
  - reflexivity.
  - unfold DIM_ref. lia.
  - apply state_ok_ex.
    + apply mask_hot_length.
    + exact grid_ex_length.
    + apply zeros_length.
Defined.

Lemma copy_const_kernel_clamps_witness :
  ∃ m' g',
    launch blocks_ref threads_ref (copy_const_kernel 1%positive 3%positive)
      (m_ex (mask_hot DIM_ref) grid_ex (zeros DIM_ref)) = Some m' ∧
    m' !! 1%positive = Some g' ∧
    (neb (cell DIM_ref (mask_hot DIM_ref) 1 1) (of_int 0) = true →
     cell DIM_ref g' 1 1 = cell DIM_ref (mask_hot DIM_ref) 1 1) ∧
    (eqb (cell DIM_ref (mask_hot DIM_ref) 1 1) (of_int 0) = true →
     cell DIM_ref g' 1 1 = cell DIM_ref grid_ex 1 1).
Proof.
  apply (copy_const_kernel_clamps DIM_ref blocks_ref threads_ref
           (m_ex (mask_hot DIM_ref) grid_ex (zeros DIM_ref))
           1%positive 3%positive grid_ex (mask_hot DIM_ref) 1 1).
  - exact geometry_ref.
  - reflexivity.
  - reflexivity.
  - discriminate.
  - exact grid_ex_length.
  - apply mask_hot_length.
  - unfold DIM_ref. lia.
  - unfold DIM_ref. lia.
Defined.

Lemma copy_const_kernel_idempotent_witness :
  ∃ m',
    launch blocks_ref threads_ref (copy_const_kernel 1%positive 3%positive)
      (m_ex (mask_hot DIM_ref) grid_ex (zeros DIM_ref)) = Some m' ∧
    launch blocks_ref threads_ref (copy_const_kernel 1%positive 3%positive) m'
      = Some m'.
Proof.
  apply (copy_const_kernel_idempotent DIM_ref blocks_ref threads_ref
           (m_ex (mask_hot DIM_ref) grid_ex (zeros DIM_ref))
           1%positive 3%positive grid_ex (mask_hot DIM_ref)).
  - exact geometry_ref.
  - reflexivity.
  - reflexivity.
  - discriminate.
  - exact grid_ex_length.
  - apply mask_hot_length.
Defined.

Lemma zero_grid_stays_zero_witness :
  ∃ d' m' cur',
    for_range 0 (Z.of_nat 3) (λ _, anim_step DIM_ref blocks_ref threads_ref)
      (d_ex, m_ex (zeros DIM_ref) (zeros DIM_ref) grid_ex) = Some (d', m') ∧
    m' !! dev_inSrc d' = Some cur' ∧
    length cur' = Z.to_nat (DIM_ref * DIM_ref) ∧
    Forall is_zero cur'.
Proof.
  apply (zero_grid_stays_zero DIM_ref blocks_ref threads_ref d_ex
           (m_ex (zeros DIM_ref) (zeros DIM_ref) grid_ex)
           (zeros DIM_ref) (zeros DIM_ref) grid_ex 3).
  - exact geometry_ref.
  - apply state_ok_ex.
    + apply zeros_length.
    + apply zeros_length.
    + exact grid_ex_length.
  - apply zeros_zero.
  - apply zeros_zero.
Defined.

Lemma kernels_in_range_witness :
  let i := blend_indices DIM_ref thread_ex in
  (0 ≤ pixel_x thread_ex < DIM_ref ∧ 0 ≤ pixel_y thread_ex < DIM_ref) ∧
  (0 ≤ pixel_offset thread_ex < DIM_ref * DIM_ref ∧
   s_offset i = pixel_offset thread_ex ∧
   0 ≤ s_left i < DIM_ref * DIM_ref ∧ 0 ≤ s_right i < DIM_ref * DIM_ref ∧
   0 ≤ s_top i < DIM_ref * DIM_ref ∧ 0 ≤ s_bottom i < DIM_ref * DIM_ref).
Proof.
  intros i.
  pose proof (kernels_in_range DIM_ref blocks_ref threads_ref thread_ex
                geometry_ref thread_ex_launched) as (Hpix & Hidx & _).
  split; [exact Hpix|exact Hidx].
Defined.

Lemma substep_4x4_witness :
  ∃ d' m',
    anim_step 4 (Dim3 1 1) (Dim3 4 4) (d_ex, m_ex mask4 (zeros 4) (zeros 4))
      = Some (d', m') ∧
    m' !! dev_inSrc d' = Some after4 ∧
    after4 = DiffusionStep 4 (SourceClampStep mask4 (zeros 4)) ∧
    m' !! dev_outSrc d' = Some mask4 ∧
    cell 4 mask4 0 0 = lit 1 1 ∧
    DiffusionStep 4 (zeros 4) = zeros 4 ∧
    cell 4 after4 1 0 = add (cell 4 (DiffusionStep 4 (zeros 4)) 1 0) quarter ∧
    cell 4 after4 0 1 = add (cell 4 (DiffusionStep 4 (zeros 4)) 0 1) quarter.
Proof.
  apply (substep_4x4 (Dim3 1 1) (Dim3 4 4) d_ex
           (m_ex mask4 (zeros 4) (zeros 4)) (zeros 4)).
  - exact geometry_4x4.
  - apply state_ok_ex; reflexivity.
Defined.

Lemma main_seeds_grids_witness :
  ∃ d m mask cur,
    main DIM_ref (zeros DIM_ref) (zeros DIM_ref) (zeros DIM_ref) (zeros DIM_ref)
      = Some (d, m) ∧
    state_ok DIM_ref d m mask cur (zeros DIM_ref) ∧
    ∀ x y, 0 ≤ x < DIM_ref → 0 ≤ y < DIM_ref →
      cell DIM_ref mask x y = seeded_mask x y ∧
      cell DIM_ref cur x y =
        (if decide (0 ≤ x < 200 ∧ 800 ≤ y < DIM_ref) then MAX_TEMP
         else cell DIM_ref mask x y) ∧
      (0 ≤ x < 200 ∧ 800 ≤ y < DIM_ref → cell DIM_ref mask x y = zero).
Proof.
  apply (main_seeds_grids (zeros DIM_ref) (zeros DIM_ref) (zeros DIM_ref)
           (zeros DIM_ref)); apply zeros_length.
Defined.

(** * Further properties of the code *)

(** ** What a launch leaves alone *)

(** X1.  A launch of [blend_kernel] writes the whole output buffer and
    nothing else: the input buffer and every other allocation are as before,
    and the new content of the output buffer does not depend on what the
    buffer held. *)
Theorem blend_kernel_frame D grid block (m : devmem) pin pout inb outb :
  geometry_ok D grid block →
  m !! pin = Some inb → m !! pout = Some outb → pin ≠ pout →
  length inb = Z.to_nat (D * D) → length outb = Z.to_nat (D * D) →
  ∃ m',
    launch grid block (blend_kernel D pout pin) m = Some m' ∧
    m' !! pin = Some inb ∧
    (∀ p, p ≠ pout → m' !! p = m !! p) ∧
    dom m' = dom m ∧
    (∀ outb', length outb' = Z.to_nat (D * D) →
       launch grid block (blend_kernel D pout pin) (<[pout := outb']> m) = Some m').
Proof.
  intros Hgeo Hin Hout Hne Hlin Hlout.
  exists (<[pout := DiffusionStep D inb]> m).
  split; [by apply (launch_blend Hgeo) with (outb := outb)|].
  split; [by rewrite lookup_insert_ne|].
  split; [intros p Hp; by rewrite lookup_insert_ne|].
  split.
  { by apply dom_insert_lookup_L. }
  intros outb' Hlen'.
  rewrite (launch_blend Hgeo (<[pout := outb']> m) pin pout inb outb').
  - by rewrite insert_insert_eq.
  - by rewrite lookup_insert_ne.
  - apply lookup_insert_eq.
  - done.
  - done.
  - done.
Qed.

(** X2.  A launch of [copy_const_kernel] changes the working buffer only:
    the mask and every other allocation are as before, no buffer changes
    its length, and a cell of the working buffer changes only where the mask
    is different from zero. *)
Theorem copy_const_kernel_frame D grid block (m : devmem) iptr cptr g mask :
  geometry_ok D grid block →
  m !! iptr = Some g → m !! cptr = Some mask → iptr ≠ cptr →
  length g = Z.to_nat (D * D) → length mask = Z.to_nat (D * D) →
  ∃ m' g',
    launch grid block (copy_const_kernel iptr cptr) m = Some m' ∧
    m' !! iptr = Some g' ∧ length g' = length g ∧
    m' !! cptr = Some mask ∧
    (∀ p, p ≠ iptr → m' !! p = m !! p) ∧
    dom m' = dom m ∧
    (∀ i : nat, g' !! i ≠ g !! i → neb (mask !!! i) (of_int 0) = true).
Proof.
  intros Hgeo Hi Hc Hne Hlg Hlm.
  exists (<[iptr := SourceClampStep mask g]> m), (SourceClampStep mask g).
  split; [by apply (launch_copy_const Hgeo)|].
  split; [apply lookup_insert_eq|].
  split; [apply SourceClampStep_length; lia|].
  split; [by rewrite lookup_insert_ne|].
  split; [intros p Hp; by rewrite lookup_insert_ne|].
  split.
  { by apply dom_insert_lookup_L. }
  intros i Hdiff. destruct (decide (i < length g)%nat) as [Hlt|Hge].
  - rewrite SourceClampStep_lookup in Hdiff by (done || lia).
    rewrite (list_lookup_lookup_total_lt g i Hlt) in Hdiff.
    unfold clamp_value in Hdiff. fold zero.
    destruct (neb (mask !!! i) zero); [done|]. by destruct Hdiff.
  - destruct Hdiff. rewrite !lookup_ge_None_2; [done|lia|].
    rewrite SourceClampStep_length; lia.
Qed.

(** ** Threads and cells *)

Lemma pixel_coords D grid block t :
  geometry_ok D grid block → t ∈ threads_of grid block →
  pixel_x t = dim_x (threadIdx t) + dim_x (blockIdx t) * dim_x block ∧
  pixel_y t = dim_y (threadIdx t) + dim_y (blockIdx t) * dim_y block.
Proof.
  intros Hgeo (Hbd & Hgd & Htx & Hty & Hbx & Hby)%elem_of_threads_of.
  pose proof (geo_dim_bound Hgeo) as HD. destruct Hgeo.
  unfold pixel_x, pixel_y. rewrite Hbd.
  split; rewrite umul_small, uadd_small, wrap_int_small; nia.
Qed.

(** X3.  The threads of a launch and the cells of the grid correspond one
    to one: every thread's offset is a cell of the grid, two different
    threads have different offsets, and every cell is the offset of a
    thread.  So no two threads write the same cell. *)
Theorem thread_offsets_bijective D grid block :
  geometry_ok D grid block →
  (∀ t, t ∈ threads_of grid block → 0 ≤ pixel_offset t < D * D) ∧
  (∀ t1 t2, t1 ∈ threads_of grid block → t2 ∈ threads_of grid block →
     pixel_offset t1 = pixel_offset t2 → t1 = t2) ∧
  (∀ o, 0 ≤ o < D * D → ∃ t, t ∈ threads_of grid block ∧ pixel_offset t = o).
Proof.
  intros Hgeo. split; [|split].
  - intros t Ht. destruct (thread_pixel Hgeo t Ht) as (Hx & Hy & ->).
    by apply offset_range.
  - intros t1 t2 Ht1 Ht2 Heq.
    destruct (thread_pixel Hgeo t1 Ht1) as (Hx1 & Hy1 & Ho1).
    destruct (thread_pixel Hgeo t2 Ht2) as (Hx2 & Hy2 & Ho2).
    destruct (pixel_coords D grid block t1 Hgeo Ht1) as (Hcx1 & Hcy1).
    destruct (pixel_coords D grid block t2 Hgeo Ht2) as (Hcx2 & Hcy2).
    rewrite Ho1, Ho2 in Heq. apply offset_inj in Heq as [Hx Hy]; [|done..].
    apply elem_of_threads_of in Ht1 as (Hbd1 & Hgd1 & Htx1 & Hty1 & _).
    apply elem_of_threads_of in Ht2 as (Hbd2 & Hgd2 & Htx2 & Hty2 & _).
    rewrite Hcx1, Hcx2 in Hx. rewrite Hcy1, Hcy2 in Hy.
    apply offset_inj in Hx as [Htx Hbx]; [|done..].
    apply offset_inj in Hy as [Hty Hby]; [|done..].
    destruct t1 as [[tx1 ty1] [bx1 by1] bd1 gd1], t2 as [[tx2 ty2] [bx2 by2] bd2 gd2].
    simpl in *. congruence.
  - intros o Ho. pose proof (geo_pos _ _ _ Hgeo) as HD.
    assert (0 ≤ o `mod` D < D) as Hx by (apply Z.mod_pos_bound; lia).
    assert (0 ≤ o `div` D < D) as Hy.
    { split; [apply Z.div_pos; lia|]. apply Z.div_lt_upper_bound; lia. }
    destruct (thread_cover Hgeo _ _ Hx Hy) as (t & Ht & Htx & Hty).
    exists t. split; [done|].
    destruct (thread_pixel Hgeo t Ht) as (_ & _ & ->). rewrite Htx, Hty.
    pose proof (Z.div_mod o D ltac:(lia)). lia.
Qed.

(** ** The order of the threads *)

Lemma offsets_cover_perm D grid block ts (i : nat) :
  geometry_ok D grid block → ts ≡ₚ threads_of grid block →
  (i < cells D)%nat → i ∈ offset_of <$> ts.
Proof.
  intros Hgeo Hperm Hi. rewrite Hperm. by apply (offsets_cover Hgeo).
Qed.

(** X4.  The result of a launch of [blend_kernel] does not depend on the
    order in which the threads run: every permutation of the threads leaves
    the memory the launch leaves. *)
Theorem blend_kernel_any_order D grid block (m : devmem) pin pout inb outb ts :
  geometry_ok D grid block →
  m !! pin = Some inb → m !! pout = Some outb → pin ≠ pout →
  length inb = Z.to_nat (D * D) → length outb = Z.to_nat (D * D) →
  ts ≡ₚ threads_of grid block →
  iterM (blend_kernel D pout pin) ts m
  = launch grid block (blend_kernel D pout pin) m.
Proof.
  intros Hgeo Hin Hout Hne Hlin Hlout Hperm.
  rewrite (launch_blend Hgeo m pin pout inb outb) by done.
  destruct (iterM_pointwise (blend_kernel D pout pin) pout m outb
    (λ i, stencil D inb (Z.of_nat i `mod` D) (Z.of_nat i `div` D)) offset_of ts)
    as (buf & Hrun & Hlen & Hbuf).
  { apply Forall_forall. intros t Ht. apply (blend_settles Hgeo); try done.
    by rewrite <-Hperm. }
  { intros i Hi. apply (offsets_cover_perm D grid block); [done..|].
    unfold cells. lia. }
  rewrite insert_id in Hrun by done. rewrite Hrun. do 2 f_equal.
  apply list_eq. intros i. destruct (decide (i < cells D)%nat) as [Hi|Hi].
  - rewrite Hbuf by (unfold cells in Hi; lia). unfold cells in Hi.
    by rewrite DiffusionStep_lookup by lia.
  - unfold cells in Hi.
    rewrite !lookup_ge_None_2; [done| |]; rewrite ?DiffusionStep_length; lia.
Qed.

(** X5.  The same for [copy_const_kernel]: every permutation of the threads
    leaves the memory the launch leaves. *)
Theorem copy_const_kernel_any_order D grid block (m : devmem) iptr cptr g mask ts :
  geometry_ok D grid block →
  m !! iptr = Some g → m !! cptr = Some mask → iptr ≠ cptr →
  length g = Z.to_nat (D * D) → length mask = Z.to_nat (D * D) →
  ts ≡ₚ threads_of grid block →
  iterM (copy_const_kernel iptr cptr) ts m
  = launch grid block (copy_const_kernel iptr cptr) m.
Proof.
  intros Hgeo Hi Hc Hne Hlg Hlm Hperm.
  rewrite (launch_copy_const Hgeo m iptr cptr g mask) by done.
  destruct (iterM_pointwise (copy_const_kernel iptr cptr) iptr m g
    (λ i, clamp_value (mask !!! i) (g !!! i)) offset_of ts)
    as (buf & Hrun & Hlen & Hbuf).
  { apply Forall_forall. intros t Ht. apply (copy_const_settles Hgeo); try done.
    by rewrite <-Hperm. }
  { intros i Hlt. apply (offsets_cover_perm D grid block); [done..|].
    unfold cells. lia. }
  rewrite insert_id in Hrun by done. rewrite Hrun. do 2 f_equal.
  apply list_eq. intros i. destruct (decide (i < length g)%nat) as [Hlt|Hge].
  - rewrite Hbuf by lia. by rewrite SourceClampStep_lookup by lia.
  - rewrite !lookup_ge_None_2; [done| |]; rewrite ?SourceClampStep_length; lia.
Qed.

(** ** Values that are not numbers *)

Lemma add_nan_l x : add S754_nan x = S754_nan.
Proof. by destruct x. Qed.

Lemma add_nan_r x : add x S754_nan = S754_nan.
Proof. by destruct x. Qed.

Lemma sub_nan_l x : sub S754_nan x = S754_nan.
Proof. by destruct x. Qed.

Lemma mul_nan_r x : mul x S754_nan = S754_nan.
Proof. by destruct x. Qed.

Lemma stencil_nan D g x y x' y' :
  0 ≤ x < D → 0 ≤ y < D → 0 ≤ x' < D → 0 ≤ y' < D →
  adjacent x y x' y' → cell D g x' y' = S754_nan →
  stencil D g x y = S754_nan.
Proof.
  intros Hx Hy Hx' Hy' Hadj Hnan. unfold stencil, north, south, west, east.
  destruct Hadj as [[-> ->]|[[-> [->| ->]]|[-> [->| ->]]]].
  - by rewrite Hnan, add_nan_l.
  - rewrite decide_False by lia. rewrite Hnan.
    by rewrite !add_nan_l, sub_nan_l, mul_nan_r, add_nan_r.
  - rewrite (decide_False (P := y = D - 1)) by lia. rewrite Hnan.
    by rewrite add_nan_r, !add_nan_l, sub_nan_l, mul_nan_r, add_nan_r.
  - rewrite (decide_False (P := x = 0)) by lia. rewrite Hnan.
    by rewrite add_nan_r, !add_nan_l, sub_nan_l, mul_nan_r, add_nan_r.
  - rewrite (decide_False (P := x = D - 1)) by lia. rewrite Hnan.
    by rewrite add_nan_r, sub_nan_l, mul_nan_r, add_nan_r.
Qed.

(** X6.  [blend_kernel] has no guard against values that are not numbers:
    a NaN in the input makes the output NaN at its own cell and at every
    cell next to it along an axis. *)
Theorem blend_kernel_spreads_nan D grid block (m : devmem) pin pout inb outb
    x y x' y' :
  geometry_ok D grid block →
  m !! pin = Some inb → m !! pout = Some outb → pin ≠ pout →
  length inb = Z.to_nat (D * D) → length outb = Z.to_nat (D * D) →
  0 ≤ x < D → 0 ≤ y < D → 0 ≤ x' < D → 0 ≤ y' < D →
  adjacent x y x' y' →
  cell D inb x' y' = S754_nan →
  ∃ m' out,
    launch grid block (blend_kernel D pout pin) m = Some m' ∧
    m' !! pout = Some out ∧
    cell D out x y = S754_nan.
Proof.
  intros Hgeo Hin Hout Hne Hlin Hlout Hx Hy Hx' Hy' Hadj Hnan.
  exists (<[pout := DiffusionStep D inb]> m), (DiffusionStep D inb).
  split; [by apply (launch_blend Hgeo) with (outb := outb)|].
  split; [apply lookup_insert_eq|].
  rewrite DiffusionStep_cell by done. by apply (stencil_nan D inb x y x' y').
Qed.

Lemma is_zero_neb c : is_zero c → neb c zero = false.
Proof. unfold is_zero, neb, eqb. by intros ->. Qed.

Lemma substep_keeps_nan D mask b x y (n : nat) :
  0 ≤ x < D → 0 ≤ y < D →
  length mask = Z.to_nat (D * D) → length (current b) = Z.to_nat (D * D) →
  is_zero (cell D mask x y) →
  cell D (current b) x y = S754_nan →
  cell D (current (Nat.iter n (substep D mask) b)) x y = S754_nan.
Proof.
  intros Hx Hy Hm Hb Hz Hnan. induction n as [|n IH]; [done|].
  cbn [Nat.iter nat_rect]. unfold substep at 1. cbn [current].
  rewrite DiffusionStep_cell by done.
  apply (stencil_nan D _ x y x y); [done..|by left|].
  rewrite SourceClampStep_cell; [|done..|by apply substep_length].
  unfold clamp_value. rewrite is_zero_neb by done. exact IH.
Qed.

(** X7.  A NaN never goes away: a cell of the current grid that is NaN and
    that the mask does not pin is NaN after every number of passes of the
    loop body of [anim_gpu]. *)
Theorem nan_persists D grid block d m mask cur nxt (n : nat) x y :
  geometry_ok D grid block →
  state_ok D d m mask cur nxt →
  0 ≤ x < D → 0 ≤ y < D →
  is_zero (cell D mask x y) →
  cell D cur x y = S754_nan →
  ∃ d' m' cur',
    for_range 0 (Z.of_nat n) (λ _, anim_step D grid block) (d, m) = Some (d', m') ∧
    m' !! dev_inSrc d' = Some cur' ∧
    cell D cur' x y = S754_nan.
Proof.
  intros Hgeo Hok Hx Hy Hz Hnan.
  destruct (anim_loop_ok Hgeo n d m mask cur nxt Hok) as (m' & Hrun & Hok').
  eexists _, m', _. split; [exact Hrun|]. split; [exact (ok_in _ _ _ _ _ _ Hok')|].
  apply substep_keeps_nan; try done.
  - exact (ok_len_mask _ _ _ _ _ _ Hok).
  - exact (ok_len_cur _ _ _ _ _ _ Hok).
Qed.

(** ** Which mask values pin *)

Lemma neb_zero_inert c :
  neb c (of_int 0) = false ↔ c = S754_zero false ∨ c = S754_zero true.
Proof.
  split.
  - intros Hc. destruct c as [[|]|[|]| |[|] mc ec]; try done; auto.
  - by intros [-> | ->].
Qed.

(** X8.  The test [cptr[offset] != 0] of [copy_const_kernel] takes exactly
    the two zeros as "no source": a mask cell that is +0 or -0 leaves the
    cell as it was, and every other mask value is copied, a NaN included. *)
Theorem copy_const_kernel_inert_values D grid block (m : devmem) iptr cptr g mask x y :
  geometry_ok D grid block →
  m !! iptr = Some g → m !! cptr = Some mask → iptr ≠ cptr →
  length g = Z.to_nat (D * D) → length mask = Z.to_nat (D * D) →
  0 ≤ x < D → 0 ≤ y < D →
  ∃ m' g',
    launch grid block (copy_const_kernel iptr cptr) m = Some m' ∧
    m' !! iptr = Some g' ∧
    (∀ s, cell D mask x y = S754_zero s → cell D g' x y = cell D g x y) ∧
    ((∀ s, cell D mask x y ≠ S754_zero s) → cell D g' x y = cell D mask x y) ∧
    (cell D mask x y = S754_nan → cell D g' x y = S754_nan).
Proof.
  intros Hgeo Hi Hc Hne Hlg Hlm Hx Hy.
  exists (<[iptr := SourceClampStep mask g]> m), (SourceClampStep mask g).
  split; [by apply (launch_copy_const Hgeo)|].
  split; [apply lookup_insert_eq|].
  rewrite SourceClampStep_cell by done. unfold clamp_value.
  split; [|split].
  - intros s ->. by destruct s.
  - intros Hnz. destruct (neb (cell D mask x y) zero) eqn:Hneb; [done|].
    apply neb_zero_inert in Hneb as [Heq|Heq]; by apply Hnz in Heq.
  - by intros ->.
Qed.

(** ** What a frame depends on *)

Lemma SourceClampStep_agree mask g g' :
  length mask = length g → length g' = length g →
  agree_unpinned mask g g' →
  SourceClampStep mask g = SourceClampStep mask g'.
Proof.
  intros Hm Hg Hagree. apply list_eq. intros i.
  destruct (decide (i < length g)%nat) as [Hlt|Hge].
  - rewrite !SourceClampStep_lookup by lia. f_equal. unfold clamp_value.
    destruct (neb (mask !!! i) zero) eqn:Hneb; [done|].
    apply Hagree. unfold is_zero, eqb. unfold neb in Hneb.
    by apply negb_false_iff in Hneb.
  - rewrite !lookup_ge_None_2; [done| |]; rewrite SourceClampStep_length; lia.
Qed.

Lemma iter_substep_agree D mask cur cur' nxt nxt' (n : nat) :
  length mask = length cur → length cur' = length cur →
  agree_unpinned mask cur cur' →
  Nat.iter (S n) (substep D mask) (Buffers cur nxt)
  = Nat.iter (S n) (substep D mask) (Buffers cur' nxt').
Proof.
  intros Hm Hc Hagree. rewrite !Nat.iter_succ_r. f_equal.
  unfold substep. cbn [current].
  by rewrite (SourceClampStep_agree mask cur cur').
Qed.

(** X9.  A frame depends only on the mask and on the cells of the current
    grid that the mask does not pin.  Two states with the same mask whose
    current grids agree on those cells give the same bitmap and the same two
    buffers, whatever [dev_outSrc] held and whatever the pinned cells
    held. *)
Theorem anim_gpu_depends_on_unpinned D {Bitmap : Type}
    (float_to_color : list float → Bitmap) d m1 m2 mask cur1 cur2 nxt1 nxt2 :
  0 < D → D `mod` 16 = 0 → D * D + D ≤ 2147483648 →
  state_ok D d m1 mask cur1 nxt1 →
  state_ok D d m2 mask cur2 nxt2 →
  agree_unpinned mask cur1 cur2 →
  ∃ m1' m2' shown,
    anim_gpu D float_to_color d m1 = Some (d, m1', shown) ∧
    anim_gpu D float_to_color d m2 = Some (d, m2', shown) ∧
    m1' !! dev_inSrc d = m2' !! dev_inSrc d ∧
    m1' !! dev_outSrc d = m2' !! dev_outSrc d.
Proof.
  intros HD Hmod Hsmall Hok1 Hok2 Hagree.
  destruct (anim_gpu_ok D float_to_color d m1 mask cur1 nxt1 HD Hmod Hsmall Hok1)
    as (m1' & Hrun1 & Hok1').
  destruct (anim_gpu_ok D float_to_color d m2 mask cur2 nxt2 HD Hmod Hsmall Hok2)
    as (m2' & Hrun2 & Hok2').
  assert (Nat.iter 90 (substep D mask) (Buffers cur1 nxt1)
          = Nat.iter 90 (substep D mask) (Buffers cur2 nxt2)) as Heq.
  { apply (iter_substep_agree D mask cur1 cur2 nxt1 nxt2 89); [|  |done].
    - rewrite (ok_len_mask _ _ _ _ _ _ Hok1). by rewrite (ok_len_cur _ _ _ _ _ _ Hok1).
    - rewrite (ok_len_cur _ _ _ _ _ _ Hok2). by rewrite (ok_len_cur _ _ _ _ _ _ Hok1). }
  rewrite Heq in Hrun1, Hok1'.
  eexists m1', m2', _. split; [exact Hrun1|]. split; [exact Hrun2|].
  rewrite (ok_in _ _ _ _ _ _ Hok1'), (ok_in _ _ _ _ _ _ Hok2').
  rewrite (ok_out _ _ _ _ _ _ Hok1'), (ok_out _ _ _ _ _ _ Hok2').
  split; reflexivity.
Qed.

(** ** The first frame *)

(** The mask of [main] as a list. *)
Lemma grid_is_eq D g f :
  0 < D → grid_is D g f →
  g = (λ o, f (o `mod` D) (o `div` D)) <$> seqZ 0 (D * D).
Proof.
  intros HD [Hlen Hg]. apply list_eq. intros i.
  destruct (decide (Z.of_nat i < D * D)) as [Hi|Hi].
  - rewrite list_lookup_fmap, lookup_seqZ_lt by done. simpl. rewrite Z.add_0_l.
    assert (0 ≤ Z.of_nat i `mod` D < D) as Hx by (apply Z.mod_pos_bound; lia).
    assert (0 ≤ Z.of_nat i `div` D < D) as Hy.
    { split; [apply Z.div_pos; lia|]. apply Z.div_lt_upper_bound; lia. }
    rewrite <-(Hg _ _ Hx Hy). unfold cell.
    pose proof (Z.div_mod (Z.of_nat i) D ltac:(lia)) as Hdm.
    replace (Z.of_nat i `mod` D + Z.of_nat i `div` D * D) with (Z.of_nat i) by lia.
    rewrite Nat2Z.id. apply list_lookup_lookup_total_lt. lia.
  - rewrite !lookup_ge_None_2; [done| |]; rewrite ?length_fmap, ?length_seqZ; lia.
Qed.

Lemma paint_rect_zero xlo xhi ylo yhi v f x y :
  ¬ is_zero v → is_zero (paint_rect xlo xhi ylo yhi v f x y) →
  paint_rect xlo xhi ylo yhi v f x y = f x y.
Proof. unfold paint_rect. intros Hv Hz. by case_decide. Qed.

Lemma seed_values_nonzero :
  ¬ is_zero MIN_TEMP ∧ ¬ is_zero MAX_TEMP ∧
  ¬ is_zero (div (add MAX_TEMP MIN_TEMP) (of_int 2)).
Proof. vm_compute. by repeat split. Qed.

Lemma seeded_mask_zero x y : is_zero (seeded_mask x y) → seeded_mask x y = zero.
Proof.
  destruct seed_values_nonzero as (Hmin & Hmax & Havg).
  unfold seeded_mask. intros Hz.
  do 4 rewrite (paint_rect_zero _ _ _ _ MIN_TEMP) in Hz |- * by assumption.
  rewrite (paint_rect_zero _ _ _ _ (div (add MAX_TEMP MIN_TEMP) (of_int 2)))
    in Hz |- * by assumption.
  rewrite (paint_rect_zero _ _ _ _ MAX_TEMP) in Hz |- * by assumption.
  reflexivity.
Qed.

Lemma hot_only_grid D : 0 < D → grid_is D (hot_only D)
  (paint_rect 0 200 800 D MAX_TEMP (λ _ _, zero)).
Proof.
  intros HD. split; [unfold hot_only; by rewrite length_fmap, length_seqZ|].
  intros x y Hx Hy. pose proof (offset_range D x y Hx Hy).
  unfold cell, hot_only. apply list_lookup_total_correct.
  rewrite list_lookup_fmap, lookup_seqZ_lt by lia. simpl.
  by rewrite Z.add_0_l, Z2Nat.id, offset_mod, offset_div by lia.
Qed.

Lemma grid_is_lookup D g f (i : nat) :
  0 < D → grid_is D g f → Z.of_nat i < D * D →
  g !!! i = f (Z.of_nat i `mod` D) (Z.of_nat i `div` D).
Proof.
  intros HD [Hlen Hg] Hi.
  assert (0 ≤ Z.of_nat i `mod` D < D) as Hx by (apply Z.mod_pos_bound; lia).
  assert (0 ≤ Z.of_nat i `div` D < D) as Hy.
  { split; [apply Z.div_pos; lia|]. apply Z.div_lt_upper_bound; lia. }
  rewrite <-(Hg _ _ Hx Hy). unfold cell. f_equal.
  pose proof (Z.div_mod (Z.of_nat i) D ltac:(lia)). lia.
Qed.

Lemma seeded_input_agrees D mask cur :
  0 < D →
  grid_is D mask seeded_mask → grid_is D cur (seeded_input D) →
  agree_unpinned mask cur (hot_only D).
Proof.
  intros HD Hmask Hcur i Hz.
  destruct (decide (Z.of_nat i < D * D)) as [Hi|Hi].
  - rewrite (grid_is_lookup D mask _ i HD Hmask Hi) in Hz.
    rewrite (grid_is_lookup D cur _ i HD Hcur Hi).
    rewrite (grid_is_lookup D (hot_only D) _ i HD (hot_only_grid D HD) Hi).
    unfold seeded_input, paint_rect at 1 2. case_decide; [done|].
    by apply seeded_mask_zero.
  - destruct Hcur as [Hlc _]. destruct (hot_only_grid D HD) as [Hlh _].
    rewrite !list_lookup_total_alt, !lookup_ge_None_2; [done|lia..].
Qed.

Lemma first_frame_gen D {Bitmap : Type} (float_to_color : list float → Bitmap)
    in0 out0 const0 temp0 :
  D = 1024 →
  length in0 = Z.to_nat (D * D) → length out0 = Z.to_nat (D * D) →
  length const0 = Z.to_nat (D * D) → length temp0 = Z.to_nat (D * D) →
  ∃ d m m',
    main D in0 out0 const0 temp0 = Some (d, m) ∧
    anim_gpu D float_to_color d m
    = Some (d, m', float_to_color
         (current (Nat.iter 90 (substep D (seeded_mask_list D))
                     (Buffers (hot_only D) (hot_only D))))).
Proof.
  intros HD Hin Hout Hconst Htemp.
  destruct (main_ok HD in0 out0 const0 temp0 Hin Hout Hconst Htemp)
    as (d & m & mask & cur & Hmain & Hok & Hmask & Hcur).
  assert (0 < D) as Hpos by lia.
  assert (D `mod` 16 = 0) as Hmod by (rewrite HD; reflexivity).
  assert (D * D + D ≤ 2147483648) as Hsmall by (rewrite HD; lia).
  destruct (anim_gpu_ok D float_to_color d m mask cur out0 Hpos Hmod Hsmall Hok)
    as (m' & Hrun & _).
  exists d, m, m'. split; [exact Hmain|].
  rewrite Hrun. do 4 f_equal.
  unfold seeded_mask_list. rewrite <-(grid_is_eq D mask seeded_mask Hpos Hmask).
  apply (iter_substep_agree D mask cur (hot_only D) out0 (hot_only D) 89).
  - destruct Hmask as [-> _]. by destruct Hcur as [-> _].
  - destruct (hot_only_grid D Hpos) as [-> _]. by destruct Hcur as [-> _].
  - by apply (seeded_input_agrees D).
Qed.

(** X10.  The first frame does not depend on uninitialised memory, and the
    mask values that [main] leaves in the initial grid do not show: whatever
    the four freshly allocated arrays held, [main] followed by [anim_gpu]
    shows the grid that ninety substeps produce from the grid that is zero
    outside the hot rectangle. *)
Theorem first_frame_of_main {Bitmap : Type} (float_to_color : list float → Bitmap)
    in0 out0 const0 temp0 :
  length in0 = Z.to_nat (DIM_ref * DIM_ref) →
  length out0 = Z.to_nat (DIM_ref * DIM_ref) →
  length const0 = Z.to_nat (DIM_ref * DIM_ref) →
  length temp0 = Z.to_nat (DIM_ref * DIM_ref) →
  ∃ d m m',
    main DIM_ref in0 out0 const0 temp0 = Some (d, m) ∧
    anim_gpu DIM_ref float_to_color d m
    = Some (d, m', float_to_color
         (current (Nat.iter 90 (substep DIM_ref (seeded_mask_list DIM_ref))
                     (Buffers (hot_only DIM_ref) (hot_only DIM_ref))))).
Proof. exact (first_frame_gen DIM_ref float_to_color in0 out0 const0 temp0 eq_refl). Qed.

(** ** Several frames *)

Lemma buffers_eta (b : buffers) : Buffers (current b) (next b) = b.
Proof. by destruct b. Qed.

Lemma iter_add {A} (n k : nat) (f : A → A) (x : A) :
  Nat.iter (n + k) f x = Nat.iter n f (Nat.iter k f x).
Proof. induction n as [|n IH]; [done|]. simpl. by rewrite IH. Qed.

(** X11.  Frames compose: [n] calls of [anim_gpu] in a row are [90 * n]
    substeps.  The k-th bitmap shows the current grid after [90 * k]
    substeps, the pointers of the [DataBlock] are the same after every
    frame, and the mask is never changed. *)
Theorem run_frames_compose D {Bitmap : Type} (float_to_color : list float → Bitmap)
    (n : nat) d m mask cur nxt :
  0 < D → D `mod` 16 = 0 → D * D + D ≤ 2147483648 →
  state_ok D d m mask cur nxt →
  let grid_after (k : nat) :=
    Nat.iter (90 * k) (substep D mask) (Buffers cur nxt) in
  ∃ m',
    run_frames D float_to_color n d m
    = Some (d, m', (λ k, float_to_color (current (grid_after (S k)))) <$> seq 0 n) ∧
    state_ok D d m' mask (current (grid_after n)) (next (grid_after n)).
Proof.
  intros HD Hmod Hsmall. revert m cur nxt.
  induction n as [|n IH]; intros m cur nxt Hok grid_after.
  - exists m. split; [reflexivity|]. exact Hok.
  - destruct (anim_gpu_ok D float_to_color d m mask cur nxt HD Hmod Hsmall Hok)
      as (m1 & Hrun & Hok1).
    destruct (IH m1 _ _ Hok1) as (m' & Hrest & Hok').
    rewrite buffers_eta in Hrest, Hok'.
    assert (∀ k, Nat.iter (90 * k) (substep D mask)
                   (Nat.iter 90 (substep D mask) (Buffers cur nxt))
                 = grid_after (S k)) as Hshift.
    { intros k. unfold grid_after. rewrite <-iter_add. f_equal. lia. }
    exists m'. split.
    + cbn [run_frames]. rewrite Hrun. cbn [mbind option_bind].
      rewrite Hrest. cbn [mbind option_bind]. do 2 f_equal.
      cbn [seq]. rewrite fmap_cons. f_equal.
      rewrite <-fmap_S_seq, <-list_fmap_compose.
      apply list_fmap_ext. intros i k _. cbn [compose].
      by rewrite Hshift.
    + rewrite Hshift in Hok'. exact Hok'.
Qed.

(** ** Allocations across frames and teardown *)

Lemma anim_loop_frame D grid block (n : nat) d m mask cur nxt :
  geometry_ok D grid block →
  state_ok D d m mask cur nxt →
  ∃ d' m',
    for_range 0 (Z.of_nat n) (λ _, anim_step D grid block) (d, m) = Some (d', m') ∧
    (∀ p, p ≠ dev_inSrc d → p ≠ dev_outSrc d → m' !! p = m !! p) ∧
    dom m' = dom m.
Proof.
  intros Hgeo Hok.
  destruct (for_range_inv
    (λ (_ : Z) '(d', m'),
       (∃ cur' nxt', state_ok D d' m' mask cur' nxt') ∧
       ((dev_inSrc d' = dev_inSrc d ∧ dev_outSrc d' = dev_outSrc d) ∨
        (dev_inSrc d' = dev_outSrc d ∧ dev_outSrc d' = dev_inSrc d)) ∧
       (∀ p, p ≠ dev_inSrc d → p ≠ dev_outSrc d → m' !! p = m !! p) ∧
       dom m' = dom m)
    0 (Z.of_nat n) (λ _, anim_step D grid block) (d, m))
    as ([d' m'] & Hrun & _ & _ & Hframe & Hdom).
  - lia.
  - split; [by exists cur, nxt|]. split; [by left|]. by split.
  - intros i [d1 m1] Hi ((cur1 & nxt1 & Hok1) & Hptr & Hframe & Hdom).
    destruct (anim_step_ok Hgeo d1 m1 mask cur1 nxt1 Hok1) as (_ & _ & Hstep & Hok2).
    eexists (_, _). split; [exact Hstep|].
    split; [by eexists _, _|]. split.
    { cbn [swap dev_inSrc dev_outSrc]. destruct Hptr as [[-> ->]|[-> ->]]; auto. }
    split.
    + intros p Hp1 Hp2. rewrite !lookup_insert_ne; [by apply Hframe| |].
      * destruct Hptr as [[-> _]|[-> _]]; done.
      * destruct Hptr as [[_ ->]|[_ ->]]; done.
    + rewrite !dom_insert_lookup_L; [done| |].
      * by rewrite (ok_in _ _ _ _ _ _ Hok1).
      * rewrite lookup_insert_ne by apply Hok1.
        by rewrite (ok_out _ _ _ _ _ _ Hok1).
  - by exists d', m'.
Qed.


Lemma run_frames_dom D {Bitmap : Type} (float_to_color : list float → Bitmap)
    (n : nat) d m mask cur nxt :
  0 < D → D `mod` 16 = 0 → D * D + D ≤ 2147483648 →
  state_ok D d m mask cur nxt →
  ∃ m' shown, run_frames D float_to_color n d m = Some (d, m', shown) ∧
              dom m' = dom m.
Proof.
  intros HD Hmod Hsmall. revert m cur nxt.
  induction n as [|n IH]; intros m cur nxt Hok.
  - by eexists m, _.
  - pose proof (anim_geometry D HD Hmod Hsmall) as Hgeo.
    destruct (anim_gpu_ok D float_to_color d m mask cur nxt HD Hmod Hsmall Hok)
      as (m1 & Hrun & Hok1).
    destruct (anim_loop_frame D _ _ 90 d m mask cur nxt Hgeo Hok)
      as (d2 & m2 & Hloop & _ & Hdom).
    change (Z.of_nat 90) with 90 in Hloop.
    assert (m2 = m1) as ->.
    { unfold anim_gpu in Hrun. rewrite Hloop in Hrun.
      cbn [mbind option_bind] in Hrun.
      destruct (m2 !! dev_inSrc d2); [|discriminate Hrun].
      cbn [mbind option_bind] in Hrun. congruence. }
    destruct (IH m1 _ _ Hok1) as (m' & rest & Hrest & Hdom').
    eexists m', _. split.
    + cbn [run_frames]. rewrite Hrun. cbn [mbind option_bind].
      rewrite Hrest. reflexivity.
    + by rewrite Hdom'.
Qed.

Lemma main_dom D in0 out0 const0 temp0 d m :
  main D in0 out0 const0 temp0 = Some (d, m) →
  dom m = {[dev_inSrc d; dev_outSrc d; dev_constSrc d]}.
Proof.
  unfold main, cudaMalloc, cudaMemcpy.
  set (p_in := fresh (dom (∅ : devmem))).
  set (m1 := <[p_in := in0]> (∅ : devmem)).
  set (p_out := fresh (dom m1)).
  set (m2 := <[p_out := out0]> m1).
  set (p_const := fresh (dom m2)).
  set (m3 := <[p_const := const0]> m2).
  destruct (seed_const D temp0) as [mask|]; [|discriminate].
  cbn [mbind option_bind].
  destruct (m3 !! p_const) as [b1|]; [|discriminate]. cbn [mbind option_bind].
  case_decide; [|discriminate]. cbn [mbind option_bind].
  destruct (seed_input D mask) as [cur|]; [|discriminate].
  cbn [mbind option_bind].
  match goal with |- context [(<[p_const := ?v]> m3) !! p_in] => set (mc := v) end.
  destruct (<[p_const := mc]> m3 !! p_in) as [b2|]; [|discriminate].
  cbn [mbind option_bind].
  case_decide; [|discriminate]. intros [= <- <-].
  cbn [dev_inSrc dev_outSrc dev_constSrc].
  unfold m3, m2, m1. rewrite !dom_insert_L, dom_empty_L. set_solver.
Qed.

(** X13.  [anim_exit] gives back what [main] allocated for the grids:
    after [main], any number of frames and [anim_exit], none of the three
    float buffers is allocated, and the memory of float buffers is empty
    again.  (The bitmap buffer [output_bitmap] is not a float buffer and is
    not held in this memory; [anim_exit] has no [cudaFree] for it.) *)
Theorem grids_released {Bitmap : Type} (float_to_color : list float → Bitmap)
    (n : nat) in0 out0 const0 temp0 :
  length in0 = Z.to_nat (DIM_ref * DIM_ref) →
  length out0 = Z.to_nat (DIM_ref * DIM_ref) →
  length const0 = Z.to_nat (DIM_ref * DIM_ref) →
  length temp0 = Z.to_nat (DIM_ref * DIM_ref) →
  ∃ d m m' shown,
    main DIM_ref in0 out0 const0 temp0 = Some (d, m) ∧
    run_frames DIM_ref float_to_color n d m = Some (d, m', shown) ∧
    anim_exit d m' = ∅.
Proof.
  intros Hin Hout Hconst Htemp.
  destruct (main_ok (D:=DIM_ref) eq_refl in0 out0 const0 temp0 Hin Hout Hconst Htemp)
    as (d & m & mask & cur & Hmain & Hok & _ & _).
  destruct (run_frames_dom DIM_ref float_to_color n d m mask cur out0
              ltac:(reflexivity) ltac:(reflexivity) ltac:(unfold DIM_ref; lia) Hok)
    as (m' & shown & Hrun & Hdom).
  exists d, m, m', shown. split; [exact Hmain|]. split; [exact Hrun|].
  pose proof (main_dom _ _ _ _ _ _ _ Hmain) as Hdm. clear Hmain Hrun Hok.
  apply map_eq. intros p. rewrite lookup_empty. unfold anim_exit, cudaFree.
  destruct (decide (p = dev_constSrc d)) as [->|H1]; [apply lookup_delete_eq|].
  rewrite lookup_delete_ne by done.
  destruct (decide (p = dev_outSrc d)) as [->|H2]; [apply lookup_delete_eq|].
  rewrite lookup_delete_ne by done.
  destruct (decide (p = dev_inSrc d)) as [->|H3]; [apply lookup_delete_eq|].
  rewrite lookup_delete_ne by done.
  apply not_elem_of_dom. rewrite Hdom, Hdm.
  rewrite !not_elem_of_union, !not_elem_of_singleton. done.
Qed.

(** ** After teardown *)

Lemma iterM_none_or_inv {A St} (I : St → Prop) (body : A → St → option St) l s :
  I s →
  (∀ a s, I s → body a s = None ∨ ∃ s', body a s = Some s' ∧ I s') →
  iterM body l s = None ∨ ∃ s', iterM body l s = Some s' ∧ I s'.
Proof.
  intros Hs Hbody. revert s Hs. induction l as [|a l IH]; intros s Hs.
  - right. by exists s.
  - simpl. destruct (Hbody a s Hs) as [->|(s' & -> & Hs')]; [by left|].
    simpl. by apply IH.
Qed.

Lemma launch_all_fail grid block k (m : devmem) :
  (∀ t, k t m = None) →
  launch grid block k m = None ∨ launch grid block k m = Some m.
Proof.
  intros Hk. unfold launch. destruct (threads_of grid block) as [|t ts].
  - by right.
  - left. simpl. by rewrite Hk.
Qed.

Lemma anim_exit_lookup d m p :
  p = dev_inSrc d ∨ p = dev_outSrc d ∨ p = dev_constSrc d →
  anim_exit d m !! p = None.
Proof.
  intros Hp. unfold anim_exit, cudaFree. rewrite !lookup_delete.
  repeat case_decide; try done. destruct Hp as [?|[?|?]]; congruence.
Qed.

Lemma anim_step_freed D grid block d (m : devmem) :
  m !! dev_inSrc d = None → m !! dev_constSrc d = None →
  anim_step D grid block (d, m) = None ∨
  anim_step D grid block (d, m) = Some (swap d, m).
Proof.
  intros Hin Hconst. unfold anim_step.
  destruct (launch_all_fail grid block
              (copy_const_kernel (dev_inSrc d) (dev_constSrc d)) m) as [-> | ->].
  - intros t. unfold copy_const_kernel, load. by rewrite Hconst.
  - by left.
  - cbn [mbind option_bind].
    destruct (launch_all_fail grid block
                (blend_kernel D (dev_outSrc d) (dev_inSrc d)) m) as [-> | ->].
    + intros t. unfold blend_kernel, load. by rewrite Hin.
    + by left.
    + by right.
Qed.

(** X14.  Nothing can be shown after teardown: [anim_gpu] on the memory
    that [anim_exit] leaves has no result, for it reads buffers that are no
    longer allocated. *)
Theorem anim_gpu_after_exit D {Bitmap : Type} (float_to_color : list float → Bitmap)
    d m :
  anim_gpu D float_to_color d (anim_exit d m) = None.
Proof.
  unfold anim_gpu, for_range.
  destruct (iterM_none_or_inv
    (λ s : DataBlock * devmem, snd s = anim_exit d m ∧ (fst s = d ∨ fst s = swap d))
    (λ _ : Z, anim_step D (Dim3 (D `quot` 16) (D `quot` 16)) (Dim3 16 16))
    (seqZ 0 (90 - 0)) (d, anim_exit d m)) as [-> | ([d' m'] & -> & Hm & Hd)].
  - split; [done|by left].
  - intros _ [d1 m1] [Hm Hd]. simpl in Hm, Hd. subst m1.
    destruct (anim_step_freed D (Dim3 (D `quot` 16) (D `quot` 16)) (Dim3 16 16)
                d1 (anim_exit d m)) as [-> | ->].
    + apply anim_exit_lookup. destruct Hd as [-> | ->]; simpl; auto.
    + apply anim_exit_lookup. destruct Hd as [-> | ->]; simpl; auto.
    + by left.
    + right. eexists. split; [done|]. split; [done|]. simpl.
      destruct Hd as [-> | ->]; [by right|left; by destruct d].
  - done.
  - simpl in Hm, Hd. subst m'. cbn [mbind option_bind].
    rewrite anim_exit_lookup; [done|].
    destruct Hd as [-> | ->]; simpl; auto.
Qed.

(** ** The seed coordinates and the grid dimension *)


Lemma for_range_first {St} lo hi (body : Z → St → option St) s :
  lo < hi →
  for_range lo hi body s = body lo s ≫= for_range (lo + 1) hi body.
Proof.
  intros Hlt. unfold for_range. rewrite seqZ_cons by lia. simpl.
  by replace (Z.pred (hi - lo)) with (hi - (lo + 1)) by lia.
Qed.


Section SeedBounds.
Context {D : Z} (HD : 0 < D) (Hsmall : D * D < 2147483648).






End SeedBounds.


(** ** Buffers that are too short *)

Lemma iterM_fails {A St} (I : St → Prop) (body : A → St → option St) l a0 s :
  I s → a0 ∈ l →
  (∀ a s s', I s → body a s = Some s' → I s') →
  (∀ s, I s → body a0 s = None) →
  iterM body l s = None.
Proof.
  intros Hs Hin Hkeep Hfail. revert s Hs.
  induction l as [|a l IH]; intros s Hs; [by apply elem_of_nil in Hin|].
  simpl. destruct (body a s) as [s'|] eqn:Hbody; [|done]. simpl.
  apply elem_of_cons in Hin as [->|Hin].
  - by rewrite Hfail in Hbody.
  - apply IH; [done|]. by eapply Hkeep.
Qed.

Lemma last_thread D grid block :
  geometry_ok D grid block →
  ∃ t, t ∈ threads_of grid block ∧ pixel_offset t = D * D - 1.
Proof.
  intros Hgeo. pose proof (geo_pos _ _ _ Hgeo) as HD.
  destruct (thread_cover Hgeo (D - 1) (D - 1)) as (t & Ht & Hx & Hy); [lia..|].
  exists t. split; [done|].
  destruct (thread_pixel Hgeo t Ht) as (_ & _ & ->). rewrite Hx, Hy. lia.
Qed.

Lemma blend_kernel_keeps D pout pin t (m m' : devmem) p :
  blend_kernel D pout pin t m = Some m' → p ≠ pout → m' !! p = m !! p.
Proof.
  unfold blend_kernel. intros Hk Hp.
  cbv zeta in Hk.
  destruct (load m pin (s_offset _)); cbn [mbind option_bind] in Hk; [|discriminate Hk].
  destruct (load m pin (s_top _)); cbn [mbind option_bind] in Hk; [|discriminate Hk].
  destruct (load m pin (s_bottom _)); cbn [mbind option_bind] in Hk; [|discriminate Hk].
  destruct (load m pin (s_left _)); cbn [mbind option_bind] in Hk; [|discriminate Hk].
  destruct (load m pin (s_right _)); cbn [mbind option_bind] in Hk; [|discriminate Hk].
  unfold store in Hk. destruct (m !! pout); cbn [mbind option_bind] in Hk;
    [|discriminate Hk].
  case_decide; [|discriminate Hk].
  injection Hk as <-. by rewrite lookup_insert_ne.
Qed.

Lemma blend_kernel_keeps_length D pout pin t (m m' : devmem) ob :
  blend_kernel D pout pin t m = Some m' → m !! pout = Some ob →
  ∃ ob', m' !! pout = Some ob' ∧ length ob' = length ob.
Proof.
  unfold blend_kernel. intros Hk Hout.
  cbv zeta in Hk.
  destruct (load m pin (s_offset _)); cbn [mbind option_bind] in Hk; [|discriminate Hk].
  destruct (load m pin (s_top _)); cbn [mbind option_bind] in Hk; [|discriminate Hk].
  destruct (load m pin (s_bottom _)); cbn [mbind option_bind] in Hk; [|discriminate Hk].
  destruct (load m pin (s_left _)); cbn [mbind option_bind] in Hk; [|discriminate Hk].
  destruct (load m pin (s_right _)); cbn [mbind option_bind] in Hk; [|discriminate Hk].
  unfold store in Hk. rewrite Hout in Hk.
  cbn [mbind option_bind] in Hk. case_decide; [|discriminate Hk].
  injection Hk as <-. eexists. split; [apply lookup_insert_eq|apply length_insert].
Qed.

Lemma copy_const_kernel_keeps iptr cptr t (m m' : devmem) p :
  copy_const_kernel iptr cptr t m = Some m' → p ≠ iptr → m' !! p = m !! p.
Proof.
  unfold copy_const_kernel. intros Hk Hp.
  destruct (load m cptr _); cbn [mbind option_bind] in Hk; [|discriminate Hk].
  destruct (neb _ _); [|by injection Hk as <-].
  unfold store in Hk. destruct (m !! iptr); cbn [mbind option_bind] in Hk;
    [|discriminate Hk].
  case_decide; [|discriminate Hk].
  injection Hk as <-. by rewrite lookup_insert_ne.
Qed.

Lemma load_outside (m : devmem) p buf i :
  m !! p = Some buf → Z.of_nat (length buf) ≤ i → load m p i = None.
Proof.
  intros Hp Hi. unfold load. rewrite Hp. cbn [mbind option_bind].
  rewrite decide_True by lia. apply lookup_ge_None_2. lia.
Qed.

(** X16.  The kernels do not test the pixel against the size of the
    buffers.  When the input or the output buffer of [blend_kernel], or the
    mask of [copy_const_kernel], has fewer cells than the launch has
    threads, the launch runs outside the buffer and has no result. *)
Theorem launch_needs_full_buffers D grid block (m : devmem) p q a b :
  geometry_ok D grid block →
  m !! p = Some a → m !! q = Some b → p ≠ q →
  (Z.of_nat (length a) < D * D ∨ Z.of_nat (length b) < D * D →
   launch grid block (blend_kernel D p q) m = None) ∧
  (Z.of_nat (length b) < D * D →
   launch grid block (copy_const_kernel p q) m = None).
Proof.
  intros Hgeo Hp Hq Hne.
  destruct (last_thread D grid block Hgeo) as (t0 & Ht0 & Hoff).
  pose proof (blend_indices_grid Hgeo t0 Ht0) as Hidx. cbv zeta in Hidx.
  assert (s_offset (blend_indices D t0) = D * D - 1) as Hso.
  { rewrite Hidx. cbn [s_offset].
    destruct (thread_pixel Hgeo t0 Ht0) as (_ & _ & <-). exact Hoff. }
  clear Hidx. split.
  - intros [Ha|Hb].
    + apply (iterM_fails
        (λ s : devmem, ∃ ob, s !! p = Some ob ∧ length ob = length a) _ _ t0);
        [by exists a|done| |].
      * intros t s s' (ob & Hs & Hlen) Hk.
        destruct (blend_kernel_keeps_length D p q t s s' ob Hk Hs) as (ob' & ? & ?).
        exists ob'. split; [done|congruence].
      * intros s (ob & Hs & Hlen). unfold blend_kernel. cbv zeta. rewrite Hso.
        destruct (load s q (D * D - 1)); cbn [mbind option_bind]; [|done].
        destruct (load s q (s_top _)); cbn [mbind option_bind]; [|done].
        destruct (load s q (s_bottom _)); cbn [mbind option_bind]; [|done].
        destruct (load s q (s_left _)); cbn [mbind option_bind]; [|done].
        destruct (load s q (s_right _)); cbn [mbind option_bind]; [|done].
        unfold store. rewrite Hs. cbn [mbind option_bind].
        rewrite decide_False by lia. done.
    + apply (iterM_fails (λ s : devmem, s !! q = Some b) _ _ t0); [done..| |].
      * intros t s s' Hs Hk. by rewrite (blend_kernel_keeps D p q t s s' q Hk).
      * intros s Hs. unfold blend_kernel. cbv zeta. rewrite Hso.
        rewrite (load_outside s q b (D * D - 1)) by (done || lia). done.
  - intros Hb.
    apply (iterM_fails (λ s : devmem, s !! q = Some b) _ _ t0); [done..| |].
    + intros t s s' Hs Hk. by rewrite (copy_const_kernel_keeps p q t s s' q Hk).
    + intros s Hs. unfold copy_const_kernel. cbv zeta. rewrite Hoff.
      rewrite (load_outside s q b (D * D - 1)) by (done || lia). done.
Qed.

(** ** A dimension that is not a multiple of 16 *)

Lemma load_negative (m : devmem) p i : i < 0 → load m p i = None.
Proof.
  intros Hi. unfold load. destruct (m !! p); cbn [mbind option_bind]; [|done].
  by rewrite decide_False by lia.
Qed.

Lemma blend_kernel_stride_mismatch D pout pin (s : devmem) :
  16 < D → D `mod` 16 ≠ 0 → D < 2147483648 →
  let grid := Dim3 (D `quot` 16) (D `quot` 16) in
  let block := Dim3 16 16 in
  let t0 := Thread (Dim3 0 1) (Dim3 0 0) block grid in
  t0 ∈ threads_of grid block ∧ blend_kernel D pout pin t0 s = None.
Proof.
  intros HD Hmod Hsmall grid block t0.
  assert (D `quot` 16 = D `div` 16) as Hq by (apply Z.quot_div_nonneg; lia).
  pose proof (Z.div_mod D 16 ltac:(lia)) as Hdm.
  pose proof (Z.mod_pos_bound D 16 ltac:(lia)) as Hmb.
  split.
  { apply elem_of_threads_of. unfold t0, grid, block. simpl. rewrite Hq.
    repeat split; lia. }
  assert (pixel_y t0 = 1) as Hy by reflexivity.
  assert (pixel_offset t0 = 16 * (D `div` 16)) as Ho.
  { unfold pixel_offset. change (pixel_x t0) with 0. rewrite Hy.
    unfold t0, grid. cbn [dim_x blockDim gridDim block]. rewrite Hq.
    change (umul 1 16) with 16.
    rewrite umul_small, uadd_small, wrap_int_small; lia. }
  assert (s_top (blend_indices D t0) = 16 * (D `div` 16) - D) as Htop.
  { unfold blend_indices. cbn [s_top]. rewrite Hy, Ho.
    rewrite decide_False by lia. apply isub_small. lia. }
  unfold blend_kernel. cbv zeta.
  destruct (load s pin (s_offset _)); cbn [mbind option_bind]; [|done].
  rewrite Htop. by rewrite (load_negative s pin (16 * (D `div` 16) - D)) by lia.
Qed.

(** X17.  [anim_gpu] launches [DIM/16] blocks of 16 threads a side, so the
    rows the threads index have [16 * (DIM/16)] cells, while [blend_kernel]
    steps to the row above by [DIM].  When [DIM] is larger than 16 and not
    a multiple of 16 the thread of pixel (0, 1) reads in front of the input
    buffer: a frame has no result, whatever the state. *)
Theorem anim_gpu_needs_multiple_of_16 D {Bitmap : Type}
    (float_to_color : list float → Bitmap) d m :
  16 < D → D `mod` 16 ≠ 0 → D < 2147483648 →
  anim_gpu D float_to_color d m = None.
Proof.
  intros HD Hmod Hsmall.
  assert (∀ pout pin (s : devmem),
            launch (Dim3 (D `quot` 16) (D `quot` 16)) (Dim3 16 16)
              (blend_kernel D pout pin) s = None) as Hblend.
  { intros pout pin s.
    destruct (blend_kernel_stride_mismatch D pout pin s HD Hmod Hsmall) as [Ht0 _].
    apply (iterM_fails (λ _, True) _ _ _ s I Ht0); [done|].
    intros s' _.
    by destruct (blend_kernel_stride_mismatch D pout pin s' HD Hmod Hsmall). }
  assert (anim_step D (Dim3 (D `quot` 16) (D `quot` 16)) (Dim3 16 16) (d, m) = None)
    as Hstep.
  { unfold anim_step.
    destruct (launch (Dim3 (D `quot` 16) (D `quot` 16)) (Dim3 16 16)
                (copy_const_kernel (dev_inSrc d) (dev_constSrc d)) m);
      cbn [mbind option_bind]; [|done].
    by rewrite Hblend. }
  unfold anim_gpu. rewrite for_range_first by lia. by rewrite Hstep.
Qed.

(** ** Where the pinned values are after a frame *)

(** X18.  After a frame the clamped grid of the last pass is the buffer
    behind [dev_outSrc]: there every cell the mask pins holds the mask's
    value.  It is the other buffer, behind [dev_inSrc], that is shown. *)
Theorem pinned_cells_in_next D {Bitmap : Type} (float_to_color : list float → Bitmap)
    d m mask cur nxt x y :
  0 < D → D `mod` 16 = 0 → D * D + D ≤ 2147483648 →
  state_ok D d m mask cur nxt →
  0 ≤ x < D → 0 ≤ y < D →
  neb (cell D mask x y) (of_int 0) = true →
  ∃ m' shown nxt',
    anim_gpu D float_to_color d m = Some (d, m', shown) ∧
    m' !! dev_outSrc d = Some nxt' ∧
    cell D nxt' x y = cell D mask x y.
Proof.
  intros HD Hmod Hsmall Hok Hx Hy Hpin.
  destruct (anim_gpu_ok D float_to_color d m mask cur nxt HD Hmod Hsmall Hok)
    as (m' & Hrun & Hok').
  apply ok_out in Hok'. rewrite (iter_succ 89) in Hok'.
  unfold substep at 1 in Hok'. cbn [next] in Hok'.
  eexists m', _, _. split; [exact Hrun|]. split; [exact Hok'|].
  rewrite SourceClampStep_cell; [by apply clamp_value_pinned|done..| |].
  - exact (ok_len_mask _ _ _ _ _ _ Hok).
  - apply substep_length.
    + exact (ok_len_mask _ _ _ _ _ _ Hok).
    + exact (ok_len_cur _ _ _ _ _ _ Hok).
Qed.

(** * Instances of the further properties *)

Lemma nan_grid_length : length nan_grid = Z.to_nat (DIM_ref * DIM_ref).
Proof. unfold nan_grid. rewrite pin_cell_length. apply zeros_length. Qed.

Lemma nan_grid_cell : cell DIM_ref nan_grid 300 200 = S754_nan.
Proof.
  unfold nan_grid. apply cell_pin_eq; [unfold DIM_ref; lia..|apply zeros_length].
Qed.

Lemma cell_zeros D x y : is_zero (cell D (zeros D) x y).
Proof. unfold cell. apply lookup_total_zero, zeros_zero. Qed.

Lemma blend_kernel_frame_witness :
  ∃ m',
    launch blocks_ref threads_ref (blend_kernel DIM_ref 2%positive 1%positive)
      (m_ex (zeros DIM_ref) grid_ex (zeros DIM_ref)) = Some m' ∧
    m' !! 1%positive = Some grid_ex ∧
    (∀ p, p ≠ 2%positive → m' !! p = m_ex (zeros DIM_ref) grid_ex (zeros DIM_ref) !! p) ∧
    dom m' = dom (m_ex (zeros DIM_ref) grid_ex (zeros DIM_ref)) ∧
    (∀ outb', length outb' = Z.to_nat (DIM_ref * DIM_ref) →
       launch blocks_ref threads_ref (blend_kernel DIM_ref 2%positive 1%positive)
         (<[2%positive := outb']> (m_ex (zeros DIM_ref) grid_ex (zeros DIM_ref)))
       = Some m').
Proof.
  apply (blend_kernel_frame DIM_ref blocks_ref threads_ref
           (m_ex (zeros DIM_ref) grid_ex (zeros DIM_ref))
           1%positive 2%positive grid_ex (zeros DIM_ref)).
  - exact geometry_ref.
  - reflexivity.
  - reflexivity.
  - discriminate.
  - exact grid_ex_length.
  - apply zeros_length.
Defined.

Lemma copy_const_kernel_frame_witness :
  ∃ m' g',
    launch blocks_ref threads_ref (copy_const_kernel 1%positive 3%positive)
      (m_ex (mask_hot DIM_ref) grid_ex (zeros DIM_ref)) = Some m' ∧
    m' !! 1%positive = Some g' ∧ length g' = length grid_ex ∧
    m' !! 3%positive = Some (mask_hot DIM_ref) ∧
    (∀ p, p ≠ 1%positive →
       m' !! p = m_ex (mask_hot DIM_ref) grid_ex (zeros DIM_ref) !! p) ∧
    dom m' = dom (m_ex (mask_hot DIM_ref) grid_ex (zeros DIM_ref)) ∧
    (∀ i : nat, g' !! i ≠ grid_ex !! i →
       neb (mask_hot DIM_ref !!! i) (of_int 0) = true).
Proof.
  apply (copy_const_kernel_frame DIM_ref blocks_ref threads_ref
           (m_ex (mask_hot DIM_ref) grid_ex (zeros DIM_ref))
           1%positive 3%positive grid_ex (mask_hot DIM_ref)).
  - exact geometry_ref.
  - reflexivity.
  - reflexivity.
  - discriminate.
  - exact grid_ex_length.
  - apply mask_hot_length.
Defined.

Lemma thread_offsets_bijective_witness :
  (∀ t, t ∈ threads_of blocks_ref threads_ref →
     0 ≤ pixel_offset t < DIM_ref * DIM_ref) ∧
  (∀ t1 t2, t1 ∈ threads_of blocks_ref threads_ref →
     t2 ∈ threads_of blocks_ref threads_ref →
     pixel_offset t1 = pixel_offset t2 → t1 = t2) ∧
  (∀ o, 0 ≤ o < DIM_ref * DIM_ref →
     ∃ t, t ∈ threads_of blocks_ref threads_ref ∧ pixel_offset t = o).
Proof. exact (thread_offsets_bijective DIM_ref blocks_ref threads_ref geometry_ref). Defined.

Lemma blend_kernel_any_order_witness :
  iterM (blend_kernel DIM_ref 2%positive 1%positive)
    (reverse (threads_of blocks_ref threads_ref))
    (m_ex (zeros DIM_ref) grid_ex (zeros DIM_ref))
  = launch blocks_ref threads_ref (blend_kernel DIM_ref 2%positive 1%positive)
      (m_ex (zeros DIM_ref) grid_ex (zeros DIM_ref)).
Proof.
  apply (blend_kernel_any_order DIM_ref blocks_ref threads_ref
           (m_ex (zeros DIM_ref) grid_ex (zeros DIM_ref))
           1%positive 2%positive grid_ex (zeros DIM_ref)).
  - exact geometry_ref.
  - reflexivity.
  - reflexivity.
  - discriminate.
  - exact grid_ex_length.
  - apply zeros_length.
  - apply reverse_Permutation.
Defined.

Lemma copy_const_kernel_any_order_witness :
  iterM (copy_const_kernel 1%positive 3%positive)
    (reverse (threads_of blocks_ref threads_ref))
    (m_ex (mask_hot DIM_ref) grid_ex (zeros DIM_ref))
  = launch blocks_ref threads_ref (copy_const_kernel 1%positive 3%positive)
      (m_ex (mask_hot DIM_ref) grid_ex (zeros DIM_ref)).
Proof.
  apply (copy_const_kernel_any_order DIM_ref blocks_ref threads_ref
           (m_ex (mask_hot DIM_ref) grid_ex (zeros DIM_ref))
           1%positive 3%positive grid_ex (mask_hot DIM_ref)).
  - exact geometry_ref.
  - reflexivity.
  - reflexivity.
  - discriminate.
  - exact grid_ex_length.
  - apply mask_hot_length.
  - apply reverse_Permutation.
Defined.

Lemma blend_kernel_spreads_nan_witness :
  ∃ m' out,
    launch blocks_ref threads_ref (blend_kernel DIM_ref 2%positive 1%positive)
      (m_ex (zeros DIM_ref) nan_grid (zeros DIM_ref)) = Some m' ∧
    m' !! 2%positive = Some out ∧
    cell DIM_ref out 300 201 = S754_nan.
Proof.
  apply (blend_kernel_spreads_nan DIM_ref blocks_ref threads_ref
           (m_ex (zeros DIM_ref) nan_grid (zeros DIM_ref))
           1%positive 2%positive nan_grid (zeros DIM_ref) 300 201 300 200).
  - exact geometry_ref.
  - reflexivity.
  - reflexivity.
  - discriminate.
  - exact nan_grid_length.
  - apply zeros_length.
  - unfold DIM_ref. lia.
  - unfold DIM_ref. lia.
  - unfold DIM_ref. lia.
  - unfold DIM_ref. lia.
  - right. left. split; [reflexivity|]. left. reflexivity.
  - exact nan_grid_cell.
Defined.

Lemma nan_persists_witness :
  ∃ d' m' cur',
    for_range 0 (Z.of_nat 5) (λ _, anim_step DIM_ref blocks_ref threads_ref)
      (d_ex, m_ex (zeros DIM_ref) nan_grid (zeros DIM_ref)) = Some (d', m') ∧
    m' !! dev_inSrc d' = Some cur' ∧
    cell DIM_ref cur' 300 200 = S754_nan.
Proof.
  apply (nan_persists DIM_ref blocks_ref threads_ref d_ex
           (m_ex (zeros DIM_ref) nan_grid (zeros DIM_ref))
           (zeros DIM_ref) nan_grid (zeros DIM_ref) 5 300 200).
  - exact geometry_ref.
  - apply state_ok_ex.
    + apply zeros_length.
    + exact nan_grid_length.
    + apply zeros_length.
  - unfold DIM_ref. lia.
  - unfold DIM_ref. lia.
  - apply cell_zeros.
  - exact nan_grid_cell.
Defined.

Lemma copy_const_kernel_inert_values_witness :
  ∃ m' g',
    launch blocks_ref threads_ref (copy_const_kernel 1%positive 3%positive)
      (m_ex (mask_hot DIM_ref) grid_ex (zeros DIM_ref)) = Some m' ∧
    m' !! 1%positive = Some g' ∧
    (∀ s, cell DIM_ref (mask_hot DIM_ref) 7 7 = S754_zero s →
          cell DIM_ref g' 7 7 = cell DIM_ref grid_ex 7 7) ∧
    ((∀ s, cell DIM_ref (mask_hot DIM_ref) 7 7 ≠ S754_zero s) →
     cell DIM_ref g' 7 7 = cell DIM_ref (mask_hot DIM_ref) 7 7) ∧
    (cell DIM_ref (mask_hot DIM_ref) 7 7 = S754_nan →
     cell DIM_ref g' 7 7 = S754_nan).
Proof.
  apply (copy_const_kernel_inert_values DIM_ref blocks_ref threads_ref
           (m_ex (mask_hot DIM_ref) grid_ex (zeros DIM_ref))
           1%positive 3%positive grid_ex (mask_hot DIM_ref) 7 7).
  - exact geometry_ref.
  - reflexivity.
  - reflexivity.
  - discriminate.
  - exact grid_ex_length.
  - apply mask_hot_length.
  - unfold DIM_ref. lia.
  - unfold DIM_ref. lia.
Defined.

Lemma agree_unpinned_refl mask g : agree_unpinned mask g g.
Proof. by intros i _. Qed.

Lemma anim_gpu_depends_on_unpinned_witness :
  ∃ m1' m2' shown,
    anim_gpu DIM_ref id d_ex (m_ex (mask_hot DIM_ref) grid_ex (zeros DIM_ref))
      = Some (d_ex, m1', shown) ∧
    anim_gpu DIM_ref id d_ex (m_ex (mask_hot DIM_ref) grid_ex nan_grid)
      = Some (d_ex, m2', shown) ∧
    m1' !! dev_inSrc d_ex = m2' !! dev_inSrc d_ex ∧
    m1' !! dev_outSrc d_ex = m2' !! dev_outSrc d_ex.
Proof.
  apply (anim_gpu_depends_on_unpinned DIM_ref id d_ex
           (m_ex (mask_hot DIM_ref) grid_ex (zeros DIM_ref))
           (m_ex (mask_hot DIM_ref) grid_ex nan_grid)
           (mask_hot DIM_ref) grid_ex grid_ex (zeros DIM_ref) nan_grid).
  - reflexivity.
  - reflexivity.
  - unfold DIM_ref. lia.
  - apply state_ok_ex.
    + apply mask_hot_length.
    + exact grid_ex_length.
    + apply zeros_length.
  - apply state_ok_ex.
    + apply mask_hot_length.
    + exact grid_ex_length.
    + exact nan_grid_length.
  - apply agree_unpinned_refl.
Defined.

Lemma first_frame_of_main_witness :
  ∃ d m m',
    main DIM_ref nan_grid nan_grid nan_grid nan_grid = Some (d, m) ∧
    anim_gpu DIM_ref id d m
    = Some (d, m', id
         (current (Nat.iter 90 (substep DIM_ref (seeded_mask_list DIM_ref))
                     (Buffers (hot_only DIM_ref) (hot_only DIM_ref))))).
Proof.
  apply (first_frame_of_main id nan_grid nan_grid nan_grid nan_grid);
    exact nan_grid_length.
Defined.

Lemma run_frames_compose_witness :
  let grid_after (k : nat) :=
    Nat.iter (90 * k) (substep DIM_ref (mask_hot DIM_ref))
      (Buffers grid_ex (zeros DIM_ref)) in
  ∃ m',
    run_frames DIM_ref id 2 d_ex (m_ex (mask_hot DIM_ref) grid_ex (zeros DIM_ref))
    = Some (d_ex, m', (λ k, id (current (grid_after (S k)))) <$> seq 0 2) ∧
    state_ok DIM_ref d_ex m' (mask_hot DIM_ref)
      (current (grid_after 2%nat)) (next (grid_after 2%nat)).
Proof.
  apply (run_frames_compose DIM_ref id 2 d_ex
           (m_ex (mask_hot DIM_ref) grid_ex (zeros DIM_ref))
           (mask_hot DIM_ref) grid_ex (zeros DIM_ref)).
  - reflexivity.
  - reflexivity.
  - unfold DIM_ref. lia.
  - apply state_ok_ex.
    + apply mask_hot_length.
    + exact grid_ex_length.
    + apply zeros_length.
Defined.


Lemma grids_released_witness :
  ∃ d m m' shown,
    main DIM_ref nan_grid nan_grid nan_grid nan_grid = Some (d, m) ∧
    run_frames DIM_ref id 2 d m = Some (d, m', shown) ∧
    anim_exit d m' = ∅.
Proof.
  apply (grids_released id 2 nan_grid nan_grid nan_grid nan_grid);
    exact nan_grid_length.
Defined.


Lemma launch_needs_full_buffers_witness :
  launch blocks_ref threads_ref (blend_kernel DIM_ref 2%positive 1%positive)
    (m_ex (zeros DIM_ref) [] (zeros DIM_ref)) = None.
Proof.
  destruct (launch_needs_full_buffers DIM_ref blocks_ref threads_ref
              (m_ex (zeros DIM_ref) [] (zeros DIM_ref))
              2%positive 1%positive (zeros DIM_ref) []
              geometry_ref eq_refl eq_refl ltac:(discriminate)) as [Hblend _].
  apply Hblend. right. change (Z.of_nat (length (@nil float))) with 0.
  unfold DIM_ref. lia.
Defined.

Lemma anim_gpu_needs_multiple_of_16_witness :
  anim_gpu 1000 id d_ex (m_ex (zeros 1000) (zeros 1000) (zeros 1000)) = None.
Proof.
  apply (anim_gpu_needs_multiple_of_16 1000 id d_ex
           (m_ex (zeros 1000) (zeros 1000) (zeros 1000))).
  - lia.
  - discriminate.
  - lia.
Defined.

Lemma pinned_cells_in_next_witness :
  ∃ m' shown nxt',
    anim_gpu DIM_ref id d_ex (m_ex (mask_hot DIM_ref) grid_ex (zeros DIM_ref))
      = Some (d_ex, m', shown) ∧
    m' !! dev_outSrc d_ex = Some nxt' ∧
    cell DIM_ref nxt' 1 1 = cell DIM_ref (mask_hot DIM_ref) 1 1.
Proof.
  apply (pinned_cells_in_next DIM_ref id d_ex
           (m_ex (mask_hot DIM_ref) grid_ex (zeros DIM_ref))
           (mask_hot DIM_ref) grid_ex (zeros DIM_ref) 1 1).
  - reflexivity.
  - reflexivity.
  - unfold DIM_ref. lia.
  - apply state_ok_ex.
    + apply mask_hot_length.
    + exact grid_ex_length.
    + apply zeros_length.
  - unfold DIM_ref. lia.
  - unfold DIM_ref. lia.
  - destruct (mask_hot_cells DIM_ref ltac:(unfold DIM_ref; lia)) as [-> _].
    reflexivity.
Defined.
